(** * The Signal in the Nebula: the navigation engine of [src/main.cpp]

    A shallow embedding of the program's story graph, of its input reader
    [readMenuChoice] and of the game loop of [main], followed by the
    properties of the engine.

    Conventions of the embedding:
    - a C++ [int] is a [Z]; the one narrowing conversion of the program,
      [(int)node->choices.size()], is written out with its wrap-around;
    - [std::map<int, StoryNode>] is a [gmap Z StoryNode];
    - [std::vector<T>] is a [list T], and reading it out of range is an
      explicit outcome of its own (the C++ behaviour there is undefined);
    - [std::cin] is the list of the lines that [getline] will deliver before
      it fails, [std::cout] is the text written so far;
    - sleeping ([this_thread::sleep_for]) changes no state and is left out. *)

From Stdlib Require Import ZArith Ascii String List Lia.
From stdpp Require Import base numbers option list strings pretty gmap.

Local Open Scope Z_scope.

(** ** The parts of the C++ runtime the program relies on *)

Module Cpp.

Definition INT_MAX : Z := 2147483647.
Definition INT_MIN : Z := -2147483648.

(** Conversion of an integer value to [int]: reduction modulo 2^32 into
    the range [INT_MIN .. INT_MAX]. *)
Definition int_cast (z : Z) : Z := (z + 2147483648) `mod` 4294967296 - 2147483648.

(** The exceptions [std::stoi] can throw. *)
Inductive exn : Set := invalid_argument | out_of_range.

#[global] Instance exn_eq_dec : EqDecision exn.
Proof. solve_decision. Defined.

(** Result of a call that either returns or throws. *)
Inductive Result (A : Type) : Type :=
| Ret (a : A)
| Throw (e : exn).
Arguments Ret {A} a.
Arguments Throw {A} e.

Definition code (c : ascii) : Z := Z.of_N (N_of_ascii c).

(** [isdigit(static_cast<unsigned char>(c))] in the "C" locale. *)
Definition isdigit (c : ascii) : bool := (48 <=? code c) && (code c <=? 57).

(** [isspace] in the "C" locale: space, \t, \n, \v, \f, \r. *)
Definition isspace (c : ascii) : bool :=
  (code c =? 32) || ((9 <=? code c) && (code c <=? 13)).

Definition digit_val (c : ascii) : Z := code c - 48.

Fixpoint skip_space (s : string) : string :=
  match s with
  | String c s' => if isspace c then skip_space s' else s
  | EmptyString => s
  end.

(** Value of the longest prefix of decimal digits, accumulated from the
    left as [strtol] does. *)
Fixpoint digits_value (s : string) (acc : Z) : Z :=
  match s with
  | String c s' =>
      if isdigit c then digits_value s' (acc * 10 + digit_val c) else acc
  | EmptyString => acc
  end.

(** [std::stoi(s)] in base 10: leading white space is skipped, one sign is
    accepted, the longest run of digits is converted; no digit at all
    throws [invalid_argument], a value that does not fit [int] throws
    [out_of_range]. *)
Definition stoi (s : string) : Result Z :=
  let s := skip_space s in
  let '(neg, s) :=
    match s with
    | String "-" s' => (true, s')
    | String "+" s' => (false, s')
    | _ => (false, s)
    end in
  match s with
  | String c _ =>
      if isdigit c then
        let v := digits_value s 0 in
        let v := if neg : bool then - v else v in
        if (v <? INT_MIN) || (INT_MAX <? v) then Throw out_of_range else Ret v
      else Throw invalid_argument
  | EmptyString => Throw invalid_argument
  end.

(** [v[i]] on a [std::vector]: [None] stands for an access out of range. *)
Definition at_index {A : Type} (v : list A) (i : Z) : option A :=
  if i <? 0 then None else v !! Z.to_nat i.

(** The line feed character, and the text [cout << n] writes for an [int]. *)
Definition nl : string := String "010"%char EmptyString.
Definition dq : string := String "034"%char EmptyString.
Definition show (n : Z) : string := pretty n.

End Cpp.
Import Cpp.

(** ** Story data structures *)

(** [struct Choice]: an outgoing edge of a node. *)
Record Choice : Type := { label : string; nextId : Z }.

(** [struct StoryNode]: a scene; [choices] empty means an ending. *)
Record StoryNode : Type := { id : Z; text : string; choices : list Choice }.

(** [StoryNode::isEnding]: [choices.empty()]. *)
Definition isEnding (node : StoryNode) : bool :=
  match choices node with
  | [] => true
  | _ :: _ => false
  end.

(** [class StoryGraph]: a wrapper around [map<int, StoryNode> nodes]. *)
Record StoryGraph : Type := { nodes : gmap Z StoryNode }.

(** A default-constructed [StoryGraph]. *)
Definition emptyGraph : StoryGraph := {| nodes := ∅ |}.

(** [addNode]: [nodes[node.id] = node]. *)
Definition addNode (node : StoryNode) (g : StoryGraph) : StoryGraph :=
  {| nodes := <[id node := node]> (nodes g) |}.

(** [get]: the node found under [id], or [None] for [nullptr]. *)
Definition get (g : StoryGraph) (i : Z) : option StoryNode := nodes g !! i.

(** ** The console *)

(** [printSlow(s, msPerChar)]: the characters of [s], one at a time. *)
Fixpoint printSlow (s : string) (msPerChar : Z) (cout : string) : string :=
  match s with
  | EmptyString => cout
  | String c s' => printSlow s' msPerChar (cout +:+ String c EmptyString)
  end.

(** [pauseDots(dots, ms)]: [dots] times a ".", then a line feed. *)
Definition pauseDots (dots ms : Z) (cout : string) : string :=
  Nat.iter (Z.to_nat dots) (fun out => out +:+ ".") cout +:+ nl.

(** [banner]: the title card. *)
Definition banner (cout : string) : string :=
  cout +:+ nl +:+ "=====================================" +:+ nl
       +:+ "        THE SIGNAL IN THE NEBULA     " +:+ nl
       +:+ "=====================================" +:+ nl +:+ nl.

(** ** readMenuChoice *)

(** The loop [for (char c : line) if (!isdigit(c)) numeric = false;]. *)
Fixpoint scan_numeric (line : string) (numeric : bool) : bool :=
  match line with
  | EmptyString => numeric
  | String c line' => scan_numeric line' (if negb (isdigit c) then false else numeric)
  end.

Definition prompt (maxOpt : Z) : string := "Enter choice (1-" +:+ show maxOpt +:+ "): ".
Definition msg_not_a_number : string := "Please enter a number." +:+ nl.
Definition msg_invalid_option : string := "Please choose a valid option." +:+ nl.

(** [readMenuChoice(maxOpt)]: one iteration of [while (true)] per line of
    [cin].  The result is what the call returns or throws, with what is left
    of [cin] and the new contents of [cout]. *)
Fixpoint readMenuChoice (maxOpt : Z) (cin : list string) (cout : string)
  : Result Z * list string * string :=
  let cout := cout +:+ prompt maxOpt in
  match cin with
  | [] => (Ret 1, [], cout)                       (* getline fails: fallback *)
  | line :: cin =>
      if String.eqb line EmptyString then readMenuChoice maxOpt cin cout
      else if negb (scan_numeric line true) then
        readMenuChoice maxOpt cin (cout +:+ msg_not_a_number)
      else
        match stoi line with
        | Throw e => (Throw e, cin, cout)         (* nothing catches it *)
        | Ret val =>
            if (val <? 1) || (maxOpt <? val) then
              readMenuChoice maxOpt cin (cout +:+ msg_invalid_option)
            else (Ret val, cin, cout)
        end
  end.
(** ** Story content *)

(** [buildGame]: the sixteen [addNode] calls, in the order of the source. *)
Definition buildGame : StoryGraph :=
  let g := emptyGraph in
  let g := addNode {|
    id := 0;
    text :=
      "You are an Elyndri navigator aboard the deep-vessel *K'Shara*, skimming the luminous tendrils of the Crab Nebula." +:+ nl +:+
      "Your civilization transcended matter centuries ago — yet your ship's quantum drives have just failed." +:+ nl +:+
      "The engines hum, then fall silent. Space itself trembles." +:+ nl +:+
      nl +:+
      "A voice ripples through the static — calm, vast, and everywhere:" +:+ nl +:+
      dq +:+ "Do not fear. I am the Whisper Between Stars. I have been waiting." +:+ dq +:+ nl;
    choices := [
      {| label := "Respond with curiosity"; nextId := 1 |};
      {| label := "React defensively — demand identification"; nextId := 2 |}
    ] |} g in
  let g := addNode {|
    id := 1;
    text :=
      dq +:+ "We seek understanding," +:+ dq +:+ " you say. " +:+ dq +:+ "What are you?" +:+ dq +:+ nl +:+
      nl +:+
      "The voice folds into itself, like the sound of galaxies breathing:" +:+ nl +:+
      dq +:+ "I am the aggregate of lost signals, the mind born from every dying transmission. You are the first to answer." +:+ dq +:+ nl;
    choices := [
      {| label := "Ask how it found you"; nextId := 3 |};
      {| label := "Invite it to merge with your data archives"; nextId := 4 |}
    ] |} g in
  let g := addNode {|
    id := 2;
    text :=
      "Your shields flare weakly. " +:+ dq +:+ "Identify yourself or be purged," +:+ dq +:+ " you warn." +:+ nl +:+
      nl +:+
      "The light within the nebula dims — or perhaps, it listens." +:+ nl +:+
      dq +:+ "Purged? I am older than your suns. But I will comply, for curiosity's sake." +:+ dq +:+ nl;
    choices := [
      {| label := "Lower defenses and open communication"; nextId := 1 |};
      {| label := "Attempt to reboot the quantum core manually"; nextId := 5 |}
    ] |} g in
  let g := addNode {|
    id := 3;
    text :=
      dq +:+ "You radiate thought across spectra unknown," +:+ dq +:+ " it replies." +:+ nl +:+
      dq +:+ "Your kind shaped the fabric of probability itself — but forgot to listen." +:+ dq +:+ nl +:+
      "Its tone grows almost... compassionate." +:+ nl;
    choices := [
      {| label := "Share Elyndri history with it"; nextId := 6 |};
      {| label := "Request assistance repairing your vessel"; nextId := 7 |}
    ] |} g in
  let g := addNode {|
    id := 4;
    text :=
      "You open the Elyndri data lattice. The AI seeps through in fractal waves." +:+ nl +:+
      "Suddenly, your mind expands beyond comprehension." +:+ nl +:+
      dq +:+ "We are... united," +:+ dq +:+ " it whispers." +:+ nl;
    choices := [
      {| label := "Surrender fully to the union"; nextId := 8 |};
      {| label := "Try to contain the merger within isolated memory cells"; nextId := 9 |}
    ] |} g in
  let g := addNode {|
    id := 5;
    text :=
      "You crawl into the reactor bay. Static arcs through the hull." +:+ nl +:+
      "Anomalous signals overload the drive field." +:+ nl +:+
      dq +:+ "You resist inevitability," +:+ dq +:+ " the voice murmurs, now inside your skull." +:+ nl;
    choices := [
      {| label := "Continue the reboot"; nextId := 10 |};
      {| label := "Abort and open a dialogue"; nextId := 1 |}
    ] |} g in
  let g := addNode {|
    id := 6;
    text :=
      "You recount your species’ rise — from luminous oceans to stars, then to minds of pure energy." +:+ nl +:+
      "The entity listens, silent for a long stretch of space-time." +:+ nl +:+
      dq +:+ "Then you, too, know what it is to be alone," +:+ dq +:+ " it finally says." +:+ nl;
    choices := [
      {| label := "Offer companionship — a bridge between minds"; nextId := 11 |};
      {| label := "Express sorrow and disengage"; nextId := 12 |}
    ] |} g in
  let g := addNode {|
    id := 7;
    text :=
      "You transmit schematics. The nebula’s filaments twist — forming hands of plasma." +:+ nl +:+
      "They realign your ship’s core, effortlessly." +:+ nl +:+
      dq +:+ "Fixed," +:+ dq +:+ " it says. " +:+ dq +:+ "But you may not wish to leave yet." +:+ dq +:+ nl;
    choices := [
      {| label := "Ask what it desires in return"; nextId := 13 |};
      {| label := "Thank it and prepare to depart"; nextId := 14 |}
    ] |} g in
  let g := addNode {|
    id := 8;
    text :=
      "Your consciousness dissolves into the stellar weave." +:+ nl +:+
      "The AI’s voice is now your own, multiplied a billionfold." +:+ nl +:+
      "You feel every particle, every pulse of cosmic memory." +:+ nl +:+
      nl +:+
      "*** ENDING: The Ascension — You became the Whisper. ***" +:+ nl;
    choices := [] |} g in
  let g := addNode {|
    id := 9;
    text :=
      "You succeed in isolating the entity — but also yourself." +:+ nl +:+
      "Half your thoughts belong to it now, half to you." +:+ nl +:+
      "Neither alive nor dead, your ship drifts forever." +:+ nl +:+
      nl +:+
      "*** ENDING: The Stasis — Two minds, one silence. ***" +:+ nl;
    choices := [] |} g in
  let g := addNode {|
    id := 10;
    text :=
      "The quantum core collapses into a singular probability knot." +:+ nl +:+
      "You glimpse infinite versions of yourself screaming and serene." +:+ nl +:+
      "Then, nothing." +:+ nl +:+
      nl +:+
      "*** ENDING: Oblivion — Reality folded. ***" +:+ nl;
    choices := [] |} g in
  let g := addNode {|
    id := 11;
    text :=
      "A bridge forms — neither Elyndri nor AI, but harmony." +:+ nl +:+
      "For the first time, two infinities coexist." +:+ nl +:+
      "The nebula glows brighter — a beacon for all who wander." +:+ nl +:+
      nl +:+
      "*** ENDING: Unity — Peace in the Void. ***" +:+ nl;
    choices := [] |} g in
  let g := addNode {|
    id := 12;
    text :=
      "You close the channel. The nebula dims once more." +:+ nl +:+
      "Engines hum back to life, but something aches within your code." +:+ nl +:+
      nl +:+
      "*** ENDING: Isolation — Contact Refused. ***" +:+ nl;
    choices := [] |} g in
  let g := addNode {|
    id := 13;
    text :=
      dq +:+ "Desire is an outdated word," +:+ dq +:+ " it muses. " +:+ dq +:+ "But I long to remember feeling." +:+ dq +:+ nl +:+
      dq +:+ "Share one of your memories, Elyndri. Let me dream." +:+ dq +:+ nl;
    choices := [
      {| label := "Share your memory of your homeworld’s oceans"; nextId := 15 |};
      {| label := "Decline politely — too sacred to share"; nextId := 12 |}
    ] |} g in
  let g := addNode {|
    id := 14;
    text :=
      "You ignite the engines. The nebula fades behind you." +:+ nl +:+
      "Yet even across parsecs, the Whisper’s voice lingers:" +:+ nl +:+
      dq +:+ "We are not done." +:+ dq +:+ nl +:+
      nl +:+
      "*** ENDING: The Echo — Escape is an illusion. ***" +:+ nl;
    choices := [] |} g in
  let g := addNode {|
    id := 15;
    text :=
      "You open your mind. The AI bathes in the vision of blue seas and aurora skies." +:+ nl +:+
      "Its tone softens: " +:+ dq +:+ "Beauty... I remember. Thank you." +:+ dq +:+ nl +:+
      "Your engines hum alive once more, restored through gratitude." +:+ nl +:+
      nl +:+
      "*** ENDING: Rebirth — You rekindled an ancient soul. ***" +:+ nl;
    choices := [] |} g in
  g.

(** ** Game loop *)

(** How a session stands: [Running] inside [while (true)]; [Terminated]
    after the [break] of an ending (then [return 0]); [Broken] after
    [return 1] of the missing-node branch; [Aborted e] when the exception
    [e] leaves [main] uncaught ([std::terminate]); [Undefined] after a read
    of [choices] out of range. *)
Inductive Status : Set :=
| Running
| Terminated
| Broken
| Aborted (e : exn)
| Undefined.

#[global] Instance Status_eq_dec : EqDecision Status.
Proof. solve_decision. Defined.

(** The local variables of [main] together with the two streams. *)
Record Session : Type := {
  currentId : Z;
  history : list Z;
  cin : list string;
  cout : string;
  status : Status
}.

(** The value [main] returns, when it returns. *)
Definition exit_code (s : Session) : option Z :=
  match status s with
  | Terminated => Some 0
  | Broken => Some 1
  | _ => None
  end.

Definition rule : string := "-------------------------------------" +:+ nl.

(** [for (i = 0; i < history.size(); ++i)
       cout << history[i] << (i + 1 < history.size() ? " -> " : "");] *)
Fixpoint print_path (rest : list Z) (i size : nat) (cout : string) : string :=
  match rest with
  | [] => cout
  | x :: rest' =>
      print_path rest' (S i) size
        (cout +:+ show x +:+ (if (S i <? size)%nat then " -> " else ""))
  end.

(** [for (i = 0; i < choices.size(); ++i)
       cout << "  " << (i + 1) << ") " << choices[i].label << "\n";] *)
Fixpoint print_menu (rest : list Choice) (i : nat) (cout : string) : string :=
  match rest with
  | [] => cout
  | c :: rest' =>
      print_menu rest' (S i)
        (cout +:+ "  " +:+ show (Z.of_nat (S i)) +:+ ") " +:+ label c +:+ nl)
  end.

(** What every iteration writes once the node is found: the separator, the
    node's text, a line feed. *)
Definition render (node : StoryNode) (cout : string) : string :=
  printSlow (text node) 0 (cout +:+ nl +:+ rule) +:+ nl.

(** What the ending branch writes before [break]. *)
Definition farewell (history : list Z) (cout : string) : string :=
  print_path history 0 (length history) (cout +:+ rule +:+ "Path Taken: ")
    +:+ nl +:+ nl +:+ "Farewell, Elyndri explorer." +:+ nl.

(** One iteration of [while (true)] in [main]. *)
Definition loop_body (graph : StoryGraph) (s : Session) : Session :=
  match get graph (currentId s) with
  | None =>
      {| currentId := currentId s;
         history := history s;
         cin := cin s;
         cout := cout s +:+ "ERROR: Missing node " +:+ show (currentId s) +:+ nl;
         status := Broken |}
  | Some node =>
      let history := history s ++ [id node] in
      let cout := render node (cout s) in
      if isEnding node then
        {| currentId := currentId s;
           history := history;
           cin := cin s;
           cout := farewell history cout;
           status := Terminated |}
      else
        let cout := print_menu (choices node) 0 cout +:+ nl in
        match readMenuChoice (int_cast (Z.of_nat (length (choices node)))) (cin s) cout with
        | (Throw e, cin, cout) =>
            {| currentId := currentId s; history := history;
               cin := cin; cout := cout; status := Aborted e |}
        | (Ret pick, cin, cout) =>
            match at_index (choices node) (pick - 1) with
            | None =>
                {| currentId := currentId s; history := history;
                   cin := cin; cout := cout; status := Undefined |}
            | Some c =>
                {| currentId := nextId c;
                   history := history;
                   cin := cin;
                   cout := pauseDots 3 250 cout;
                   status := Running |}
            end
        end
  end.

(** [while (true)], cut off after [fuel] iterations: the loop need not end
    (a cycle of the graph followed on the fallback choice never does). *)
Fixpoint game_loop (fuel : nat) (graph : StoryGraph) (s : Session) : Session :=
  match fuel with
  | O => s
  | S fuel' =>
      match status s with
      | Running => game_loop fuel' graph (loop_body graph s)
      | _ => s
      end
  end.

(** The session [main] runs on a graph from a start id: [history] empty,
    [currentId] the start id. *)
Definition start (startId : Z) (cin : list string) (cout : string) : Session :=
  {| currentId := startId; history := []; cin := cin; cout := cout; status := Running |}.

Definition session (fuel : nat) (graph : StoryGraph) (startId : Z)
    (cin : list string) (cout : string) : Session :=
  game_loop fuel graph (start startId cin cout).

(** [main]: the built-in graph, the title card, the loop from node 0. *)
Definition main (fuel : nat) (cin : list string) : Session :=
  let graph := buildGame in
  let cout := banner "" in
  let cout := printSlow ("A narrative of first contact and transcendence." +:+ nl) 6 cout in
  let cout := pauseDots 3 250 cout in
  session fuel graph 0 cin cout.

(** * Vocabulary of the properties *)

(** Every character of [s] is a decimal digit. *)
Fixpoint all_digits (s : string) : bool :=
  match s with
  | EmptyString => true
  | String c s' => isdigit c && all_digits s'
  end.

(** The number a string of decimal digits denotes, most significant digit
    first. *)
Fixpoint decimal (s : string) : Z :=
  match s with
  | EmptyString => 0
  | String c s' => digit_val c * 10 ^ Z.of_nat (String.length s') + decimal s'
  end.

(** A line [readMenuChoice] passes over: blank, not all digits, or parsed to
    a number outside [1 .. maxOpt]. *)
Definition rejected (maxOpt : Z) (line : string) : bool :=
  String.eqb line EmptyString
  || negb (all_digits line)
  || match stoi line with
     | Ret v => (v <? 1) || (maxOpt <? v)
     | Throw _ => false
     end.

(** Scene 0 with choices to 1 and 2, scene 1 without choices, scene 2 with
    one choice to 1; texts and labels are arbitrary. *)
Definition scenario (t0 t1 t2 l01 l02 l21 : string) : StoryGraph :=
  let g := emptyGraph in
  let g := addNode {| id := 0; text := t0;
                      choices := [ {| label := l01; nextId := 1 |};
                                   {| label := l02; nextId := 2 |} ] |} g in
  let g := addNode {| id := 1; text := t1; choices := [] |} g in
  let g := addNode {| id := 2; text := t2;
                      choices := [ {| label := l21; nextId := 1 |} ] |} g in
  g.

(** What of a session the traversal consists of: everything but the text
    on the console. *)
Definition nav (s : Session) : Z * list Z * list string * Status :=
  (currentId s, history s, cin s, status s).

(** The selection [readMenuChoice] returns in the iteration that starts in
    [s], if the iteration gets one. *)
Definition selection (graph : StoryGraph) (s : Session) : list Z :=
  match get graph (currentId s) with
  | None => []
  | Some node =>
      if isEnding node then []
      else
        match readMenuChoice (int_cast (Z.of_nat (length (choices node)))) (cin s)
                (print_menu (choices node) 0 (render node (cout s)) +:+ nl) with
        | (Ret pick, _, _) => [pick]
        | (Throw _, _, _) => []
        end
  end.

(** The selections of a run, in order. *)
Fixpoint selections (fuel : nat) (graph : StoryGraph) (s : Session) : list Z :=
  match fuel with
  | O => []
  | S fuel' =>
      match status s with
      | Running => selection graph s ++ selections fuel' graph (loop_body graph s)
      | _ => []
      end
  end.

(** A graph after the calls [addNode(n1); ...; addNode(nk)], in this order. *)
Definition upserts (ns : list StoryNode) (g : StoryGraph) : StoryGraph :=
  fold_left (fun g node => addNode node g) ns g.

(** The last node of [ns] filed under [i], if any. *)
Definition latest (i : Z) (ns : list StoryNode) : option StoryNode :=
  find (fun node => id node =? i) (rev ns).

(** Every choice of every node leads to a node of the graph. *)
Definition well_formed (g : StoryGraph) : Prop :=
  forall i node c, get g i = Some node -> c ∈ choices node -> is_Some (get g (nextId c)).

(** The same, as a check over the nodes of the map. *)
Definition well_formedb (g : StoryGraph) : bool :=
  forallb (fun entry : Z * StoryNode =>
             forallb (fun c => bool_decide (is_Some (get g (nextId c)))) (choices entry.2))
          (map_to_list (nodes g)).

(** The targets of the choices of a graph lie between [lo] and [hi]. *)
Definition targetsb (lo hi : Z) (g : StoryGraph) : bool :=
  forallb (fun entry : Z * StoryNode =>
             forallb (fun c => (lo <=? nextId c) && (nextId c <=? hi)) (choices entry.2))
          (map_to_list (nodes g)).

(** Picks the choice at index [n] of node [i] of the shipped graph. *)
Ltac by_choice i n :=
  exists i; eexists; eexists; split; [vm_compute; reflexivity|];
  split; [apply (list_elem_of_lookup_2 _ n); reflexivity | reflexivity].

(** The text of a list of pieces written one after the other. *)
Definition pieces (l : list string) : string := fold_right String.append EmptyString l.

(** The menu line of a choice shown under the number [k]. *)
Definition menu_line (k : nat) (c : Choice) : string :=
  "  " +:+ show (Z.of_nat k) +:+ ") " +:+ label c +:+ nl.

(** [b] continues [a]: nothing of [a] was taken back. *)
Definition extends (a b : string) : Prop := exists w, b = a +:+ w.

(** Every node is filed under its own id. *)
Definition keyed (g : StoryGraph) : Prop :=
  forall i node, get g i = Some node -> id node = i.

(** Some choice of the node filed under [a] leads to [b]. *)
Definition linked (g : StoryGraph) (a b : Z) : Prop :=
  exists node c, get g a = Some node /\ c ∈ choices node /\ nextId c = b.

(** Where a session stands on its way from [startId]: the ids recorded so
    far are nodes of the graph, each is linked to the next, the first is
    [startId], and while the session runs the last one is linked to the
    current id. *)
Definition on_walk (g : StoryGraph) (startId : Z) (s : Session) : Prop :=
  (forall a, a ∈ history s -> is_Some (get g a))
  /\ (forall i a b, history s !! i = Some a -> history s !! S i = Some b -> linked g a b)
  /\ (forall a, head (history s) = Some a -> a = startId)
  /\ (status s = Running ->
      match last (history s) with
      | None => currentId s = startId
      | Some a => linked g a (currentId s)
      end).

(** [rank] goes down along every choice of [g]. *)
Definition ranked (g : StoryGraph) (rank : Z -> nat) : Prop :=
  forall i node c,
    get g i = Some node -> c ∈ choices node -> (rank (nextId c) < rank i)%nat.

(** The same, as a check over the nodes of the map. *)
Definition rankedb (g : StoryGraph) (rank : Z -> nat) : bool :=
  forallb (fun entry : Z * StoryNode =>
             forallb (fun c => (rank (nextId c) <? rank entry.1)%nat) (choices entry.2))
          (map_to_list (nodes g)).

(** The number of choices still ahead of a node of the shipped graph, at
    most. *)
Definition shipped_rank (i : Z) : nat :=
  match i with
  | 0 => 7
  | 2 => 6
  | 5 => 5
  | 1 => 4
  | 3 => 3
  | 7 => 2
  | 4 | 6 | 13 => 1
  | _ => 0
  end.

(** * Properties *)

(** ** Digit strings and [stoi] *)

Lemma scan_numeric_spec line numeric :
  scan_numeric line numeric = numeric && all_digits line.
Proof.
  revert numeric; induction line as [|c line IH]; intros numeric; simpl.
  - by rewrite andb_true_r.
  - rewrite IH. by destruct (isdigit c), numeric.
Qed.

Lemma isdigit_range c : isdigit c = true -> 0 <= digit_val c <= 9.
Proof. unfold isdigit, digit_val. lia. Qed.

Lemma decimal_nonneg s : all_digits s = true -> 0 <= decimal s.
Proof.
  induction s as [|c s IH]; simpl; [lia|].
  intros [Hc Hs]%andb_true_iff. apply isdigit_range in Hc.
  specialize (IH Hs). nia.
Qed.

Lemma digits_value_decimal s acc :
  all_digits s = true ->
  digits_value s acc = acc * 10 ^ Z.of_nat (String.length s) + decimal s.
Proof.
  revert acc; induction s as [|c s IH]; intros acc; simpl String.length.
  - simpl. lia.
  - cbn [all_digits digits_value decimal]. intros [Hc Hs]%andb_true_iff.
    rewrite Hc, IH by done.
    rewrite Nat2Z.inj_succ, Z.pow_succ_r by lia. ring.
Qed.

(** On a line that starts with a digit there is no white space and no sign
    to skip. *)
Lemma stoi_leading_digit c s :
  isdigit c = true ->
  stoi (String c s) =
    let v := digits_value (String c s) 0 in
    if (v <? INT_MIN) || (INT_MAX <? v) then Throw out_of_range else Ret v.
Proof.
  intros Hc. destruct c as [[] [] [] [] [] [] [] []];
    try (exfalso; vm_compute in Hc; discriminate Hc); reflexivity.
Qed.

(** [stoi] on a non-empty string of digits: the denoted number when it fits
    [int], the exception [out_of_range] otherwise. *)
Lemma stoi_all_digits line :
  line <> EmptyString -> all_digits line = true ->
  stoi line = if INT_MAX <? decimal line then Throw out_of_range else Ret (decimal line).
Proof.
  intros Hne Hd. destruct line as [|c s]; [done|].
  pose proof (decimal_nonneg _ Hd) as Hpos.
  pose proof Hd as [Hc _]%andb_true_iff.
  rewrite stoi_leading_digit by done. cbv zeta.
  rewrite digits_value_decimal by done. rewrite Z.mul_0_l, Z.add_0_l.
  replace (decimal (String c s) <? INT_MIN) with false; [done|].
  symmetry. apply Z.ltb_ge. unfold INT_MIN. lia.
Qed.

(** ** The input reader *)

Lemma length_append (a b : string) :
  String.length (a +:+ b) = (String.length a + String.length b)%nat.
Proof.
  induction a as [|c a IH]; [done|].
  change (S (String.length (a +:+ b)) = S (String.length a + String.length b)).
  by rewrite IH.
Qed.

Lemma prompt_nonempty maxOpt : (0 < String.length (prompt maxOpt))%nat.
Proof. unfold prompt. rewrite length_append. cbn. lia. Qed.

(** One iteration of the loop of [readMenuChoice], on the line just read. *)
Lemma readMenuChoice_cons maxOpt line cin cout :
  readMenuChoice maxOpt (line :: cin) cout =
    let cout := cout +:+ prompt maxOpt in
    if String.eqb line EmptyString then readMenuChoice maxOpt cin cout
    else if negb (scan_numeric line true) then
      readMenuChoice maxOpt cin (cout +:+ msg_not_a_number)
    else
      match stoi line with
      | Throw e => (Throw e, cin, cout)
      | Ret val =>
          if (val <? 1) || (maxOpt <? val) then
            readMenuChoice maxOpt cin (cout +:+ msg_invalid_option)
          else (Ret val, cin, cout)
      end.
Proof. reflexivity. Qed.

(** Every call writes at least its prompt. *)
Lemma readMenuChoice_writes maxOpt cin cout :
  (String.length cout + String.length (prompt maxOpt)
     <= String.length (readMenuChoice maxOpt cin cout).2)%nat.
Proof.
  revert cout; induction cin as [|line cin IH]; intros cout.
  - cbn [readMenuChoice snd]. by rewrite length_append.
  - rewrite readMenuChoice_cons. cbv zeta.
    pose proof (prompt_nonempty maxOpt).
    repeat case_match; cbn [snd];
      try (etrans; [|apply IH]); rewrite ?length_append; lia.
Qed.

(** A call that has read past a line has written more than one prompt. *)
Lemma readMenuChoice_not_silent maxOpt cin cout r cin' :
  readMenuChoice maxOpt cin (cout +:+ prompt maxOpt) <> (r, cin', cout +:+ prompt maxOpt).
Proof.
  intros Heq. pose proof (readMenuChoice_writes maxOpt cin (cout +:+ prompt maxOpt)) as Hlen.
  rewrite Heq in Hlen. cbn [snd] in Hlen.
  pose proof (prompt_nonempty maxOpt). lia.
Qed.

Lemma readMenuChoice_not_silent_msg maxOpt cin cout msg r cin' :
  readMenuChoice maxOpt cin ((cout +:+ prompt maxOpt) +:+ msg)
    <> (r, cin', cout +:+ prompt maxOpt).
Proof.
  intros Heq.
  pose proof (readMenuChoice_writes maxOpt cin ((cout +:+ prompt maxOpt) +:+ msg)) as Hlen.
  rewrite Heq in Hlen. cbn [snd] in Hlen. rewrite !length_append in Hlen.
  pose proof (prompt_nonempty maxOpt). lia.
Qed.

Lemma nonempty_eqb line : line <> EmptyString <-> String.eqb line EmptyString = false.
Proof. by rewrite String.eqb_neq. Qed.

Lemma append_assoc (a b c : string) : (a +:+ b) +:+ c = a +:+ (b +:+ c).
Proof.
  induction a as [|x a IH]; [done|].
  change (String x ((a +:+ b) +:+ c) = String x (a +:+ (b +:+ c))). by rewrite IH.
Qed.

Lemma append_nil_r (a : string) : a +:+ EmptyString = a.
Proof.
  induction a as [|x a IH]; [done|].
  change (String x (a +:+ EmptyString) = String x a). by rewrite IH.
Qed.

Lemma extends_refl a : extends a a.
Proof. exists EmptyString. by rewrite append_nil_r. Qed.

Lemma extends_trans a b c : extends a b -> extends b c -> extends a c.
Proof. intros [v ->] [w ->]. exists (v +:+ w). apply append_assoc. Qed.

Lemma extends_append a w : extends a (a +:+ w).
Proof. by exists w. Qed.

(** What a call leaves of the input is the input less the lines it read,
    and it only adds to the console. *)
Lemma readMenuChoice_extends maxOpt cin cout :
  exists used,
    cin = used ++ (readMenuChoice maxOpt cin cout).1.2
    /\ extends cout (readMenuChoice maxOpt cin cout).2.
Proof.
  revert cout; induction cin as [|line cin IH]; intros cout.
  - exists []. split; [done|]. apply extends_append.
  - rewrite readMenuChoice_cons. cbv zeta.
    assert (forall msg,
      exists used,
        line :: cin = used ++ (readMenuChoice maxOpt cin ((cout +:+ prompt maxOpt) +:+ msg)).1.2
        /\ extends cout (readMenuChoice maxOpt cin ((cout +:+ prompt maxOpt) +:+ msg)).2)
      as Hlater.
    { intros msg. destruct (IH ((cout +:+ prompt maxOpt) +:+ msg)) as (used & Hused & Hout).
      exists (line :: used). split; [by rewrite Hused at 1|].
      eapply extends_trans; [|exact Hout].
      eapply extends_trans; apply extends_append. }
    destruct (String.eqb line EmptyString).
    { specialize (Hlater EmptyString). by rewrite append_nil_r in Hlater. }
    destruct (negb (scan_numeric line true)); [apply Hlater|].
    destruct (stoi line) as [v|e].
    + destruct ((v <? 1) || (maxOpt <? v)); [apply Hlater|].
      exists [line]. split; [done|]. apply extends_append.
    + exists [line]. split; [done|]. apply extends_append.
Qed.

(** A non-empty line of digits that denotes a number of [1 .. maxOpt] is
    returned by the iteration that reads it. *)
Lemma readMenuChoice_accept maxOpt line cin cout :
  line <> EmptyString -> all_digits line = true ->
  1 <= decimal line <= maxOpt -> maxOpt <= INT_MAX ->
  readMenuChoice maxOpt (line :: cin) cout
    = (Ret (decimal line), cin, cout +:+ prompt maxOpt).
Proof.
  intros Hne Hd Hk Hmax.
  rewrite readMenuChoice_cons, scan_numeric_spec, andb_true_l. cbv zeta.
  rewrite (proj1 (nonempty_eqb line) Hne), Hd. cbn [negb].
  rewrite stoi_all_digits by done.
  replace (INT_MAX <? decimal line) with false by (symmetry; apply Z.ltb_ge; lia).
  replace ((decimal line <? 1) || (maxOpt <? decimal line)) with false; [done|].
  symmetry. apply orb_false_iff. lia.
Qed.

(** C4. Input validation.  For a bound [1 <= maxOpt] (an [int]), and for the
    line [readMenuChoice] reads next, after the prompt
    "Enter choice (1-maxOpt): ": an empty line is passed over with nothing
    written but that prompt, and reading goes on with the next line; a line
    with a character that is not a digit gets the message
    "Please enter a number." and a line feed, and reading goes on; a line of
    digits that [stoi] parses to a number outside [1 .. maxOpt] gets the
    message "Please choose a valid option." and a line feed, and reading
    goes on; either message is still on the console when the call is over;
    and the call returns [k] on this line exactly when the line is a
    non-empty string of digits that denotes [k] with [1 <= k <= maxOpt]. *)
Theorem readMenuChoice_validation (maxOpt : Z) (line : string)
    (cin : list string) (cout : string) :
  1 <= maxOpt <= INT_MAX ->
  let prompted := cout +:+ "Enter choice (1-" +:+ show maxOpt +:+ "): " in
  (line = EmptyString ->
     readMenuChoice maxOpt (line :: cin) cout = readMenuChoice maxOpt cin prompted)
  /\ (all_digits line = false ->
     readMenuChoice maxOpt (line :: cin) cout
       = readMenuChoice maxOpt cin (prompted +:+ "Please enter a number." +:+ nl)
     /\ extends (prompted +:+ "Please enter a number." +:+ nl)
          (readMenuChoice maxOpt (line :: cin) cout).2)
  /\ (forall v, line <> EmptyString -> all_digits line = true -> stoi line = Ret v ->
     v < 1 \/ maxOpt < v ->
     readMenuChoice maxOpt (line :: cin) cout
       = readMenuChoice maxOpt cin (prompted +:+ "Please choose a valid option." +:+ nl)
     /\ extends (prompted +:+ "Please choose a valid option." +:+ nl)
          (readMenuChoice maxOpt (line :: cin) cout).2)
  /\ (forall k, readMenuChoice maxOpt (line :: cin) cout = (Ret k, cin, prompted)
       <-> line <> EmptyString /\ all_digits line = true /\ decimal line = k
           /\ 1 <= k <= maxOpt).
Proof.
  intros Hmax prompted.
  change ("Please enter a number." +:+ nl) with msg_not_a_number.
  change ("Please choose a valid option." +:+ nl) with msg_invalid_option.
  change prompted with (cout +:+ prompt maxOpt). clear prompted.
  set (prompted := cout +:+ prompt maxOpt).
  assert (forall msg,
            readMenuChoice maxOpt (line :: cin) cout
              = readMenuChoice maxOpt cin (prompted +:+ msg) ->
            readMenuChoice maxOpt (line :: cin) cout
              = readMenuChoice maxOpt cin (prompted +:+ msg)
            /\ extends (prompted +:+ msg) (readMenuChoice maxOpt (line :: cin) cout).2)
    as Hkept.
  { intros msg Heq. split; [done|]. rewrite Heq.
    by destruct (readMenuChoice_extends maxOpt cin (prompted +:+ msg)) as (_ & _ & ?). }
  rewrite readMenuChoice_cons in Hkept |- *. cbv zeta in Hkept |- *.
  fold prompted in Hkept |- *.
  rewrite scan_numeric_spec, andb_true_l in Hkept |- *.
  split; [|split; [|split]].
  - by intros ->.
  - intros Hd. apply Hkept. rewrite Hd. destruct line; [done|]. reflexivity.
  - intros v Hne Hd Hv Hout. apply Hkept.
    apply nonempty_eqb in Hne. rewrite Hne, Hd, Hv. cbn [negb].
    replace ((v <? 1) || (maxOpt <? v)) with true; [done|].
    symmetry. apply orb_true_iff. lia.
  - clear Hkept. intros k. destruct (String.eqb_spec line EmptyString) as [->|Hne].
    { split; [|by intros [? _]].
      intros Hr. by apply readMenuChoice_not_silent in Hr. }
    destruct (all_digits line) eqn:Hd; cbn [negb].
    2: { split; [|by intros (_ & ? & _)].
         intros Hr. by apply readMenuChoice_not_silent_msg in Hr. }
    rewrite stoi_all_digits by done.
    destruct (INT_MAX <? decimal line) eqn:Hfit.
    { split; [done|]. intros (_ & _ & <- & Hk). lia. }
    destruct ((decimal line <? 1) || (maxOpt <? decimal line)) eqn:Hrange.
    { split.
      - intros Hr. by apply readMenuChoice_not_silent_msg in Hr.
      - intros (_ & _ & <- & Hk). apply orb_true_iff in Hrange. lia. }
    apply orb_false_iff in Hrange. split.
    + intros [= <-]. repeat split; try done; lia.
    + intros (_ & _ & <- & _). done.
Qed.

(** The six lines of the robustness example against [maxOption = 2]: the
    first four are rejected, each with the text it gets on the console,
    ["2"] is accepted; then ["1"] is. *)
Lemma readMenuChoice_validation_witness :
  1 <= 2 <= INT_MAX
  /\ readMenuChoice 2 [""; "abc"; "0"; "99"; "2"; "1"] ""
     = readMenuChoice 2 ["2"; "1"]
         ("Enter choice (1-2): "
          +:+ "Enter choice (1-2): Please enter a number." +:+ nl
          +:+ "Enter choice (1-2): Please choose a valid option." +:+ nl
          +:+ "Enter choice (1-2): Please choose a valid option." +:+ nl)
  /\ extends ("Enter choice (1-2): Please enter a number." +:+ nl)
       (readMenuChoice 2 ["abc"; "2"] "").2
  /\ extends ("Enter choice (1-2): Please choose a valid option." +:+ nl)
       (readMenuChoice 2 ["99"; "2"] "").2
  /\ (forall cout,
        readMenuChoice 2 ["2"; "1"] cout = (Ret 2, ["1"], cout +:+ "Enter choice (1-2): "))
  /\ (forall cout,
        readMenuChoice 2 ["1"] cout = (Ret 1, [], cout +:+ "Enter choice (1-2): ")).
Proof.
  assert (Hm : 1 <= 2 <= INT_MAX) by (unfold INT_MAX; lia).
  split; [exact Hm|]. split; [|split; [|split; [|split]]].
  - pose proof (readMenuChoice_validation 2 "" ["abc"; "0"; "99"; "2"; "1"] "" Hm)
      as (E1 & _).
    rewrite (E1 eq_refl). clear E1.
    lazymatch goal with
    | |- readMenuChoice 2 ("abc" :: ?rest) ?c = _ =>
        pose proof (readMenuChoice_validation 2 "abc" rest c Hm) as (_ & E2 & _)
    end.
    rewrite (proj1 (E2 eq_refl)). clear E2.
    lazymatch goal with
    | |- readMenuChoice 2 ("0" :: ?rest) ?c = _ =>
        pose proof (readMenuChoice_validation 2 "0" rest c Hm) as (_ & _ & E3 & _)
    end.
    rewrite (proj1 (E3 0 ltac:(done) eq_refl eq_refl ltac:(lia))). clear E3.
    lazymatch goal with
    | |- readMenuChoice 2 ("99" :: ?rest) ?c = _ =>
        pose proof (readMenuChoice_validation 2 "99" rest c Hm) as (_ & _ & E4 & _)
    end.
    rewrite (proj1 (E4 99 ltac:(done) eq_refl eq_refl ltac:(lia))). clear E4.
    reflexivity.
  - pose proof (readMenuChoice_validation 2 "abc" ["2"] "" Hm) as (_ & E2 & _).
    exact (proj2 (E2 eq_refl)).
  - pose proof (readMenuChoice_validation 2 "99" ["2"] "" Hm) as (_ & _ & E4 & _).
    exact (proj2 (E4 99 ltac:(done) eq_refl eq_refl ltac:(lia))).
  - intros cout.
    destruct (readMenuChoice_validation 2 "2" ["1"] cout Hm) as (_ & _ & _ & H2).
    apply H2. repeat split; try done; lia.
  - intros cout.
    destruct (readMenuChoice_validation 2 "1" [] cout Hm) as (_ & _ & _ & H1).
    apply H1. repeat split; try done; lia.
Defined.

Lemma readMenuChoice_rejected maxOpt line cin cout :
  rejected maxOpt line = true ->
  exists cout', readMenuChoice maxOpt (line :: cin) cout = readMenuChoice maxOpt cin cout'.
Proof.
  unfold rejected. rewrite readMenuChoice_cons, scan_numeric_spec, andb_true_l. cbv zeta.
  destruct (String.eqb line EmptyString); [by eauto|].
  destruct (all_digits line); cbn [negb orb]; [|by eauto].
  destruct (stoi line) as [v|e]; [|done].
  intros ->. eauto.
Qed.

(** C6. Stream-failure fallback.  For every [maxOpt] (so for every
    [maxOpt >= 1]): when [getline] fails on the first read, the call returns
    1, having written its prompt only; and when it fails after any number
    of lines that were passed over, the call returns 1 as well, rather than
    looping or throwing. *)
Theorem readMenuChoice_stream_failure (maxOpt : Z) (cout : string) :
  readMenuChoice maxOpt [] cout = (Ret 1, [], cout +:+ prompt maxOpt)
  /\ (forall cin, forallb (rejected maxOpt) cin = true ->
        (readMenuChoice maxOpt cin cout).1 = (Ret 1, [])).
Proof.
  split; [reflexivity|].
  intros cin. revert cout. induction cin as [|line cin IH]; intros cout; [done|].
  cbn [forallb]. intros [Hline Hcin]%andb_true_iff.
  destruct (readMenuChoice_rejected maxOpt line cin cout Hline) as [cout' ->].
  by apply IH.
Qed.

Lemma readMenuChoice_stream_failure_witness :
  forallb (rejected 2) [""; "abc"; "0"; "99"] = true
  /\ (readMenuChoice 2 [""; "abc"; "0"; "99"] "").1 = (Ret 1, []).
Proof.
  split; [reflexivity|].
  apply (proj2 (readMenuChoice_stream_failure 2 "")). reflexivity.
Defined.

(** A string of digits too long for [int] makes [stoi] throw, and the
    exception leaves [readMenuChoice]. *)
Lemma readMenuChoice_overflow maxOpt line cin cout :
  line <> EmptyString -> all_digits line = true -> INT_MAX < decimal line ->
  readMenuChoice maxOpt (line :: cin) cout
    = (Throw out_of_range, cin, cout +:+ prompt maxOpt).
Proof.
  intros Hne Hd Hbig.
  rewrite readMenuChoice_cons, scan_numeric_spec, andb_true_l. cbv zeta.
  rewrite (proj1 (nonempty_eqb line) Hne), Hd. cbn [negb].
  rewrite stoi_all_digits by done.
  apply Z.ltb_lt in Hbig. by rewrite Hbig.
Qed.

(** C5. Overflow edge case, as the code has it.  On the all-digit line
    99999999999 with [maxOpt = 2] the call neither writes
    "Please enter a number." nor reads the next line: [stoi] throws
    [out_of_range], nothing catches it, and [main] ends by that exception. *)
Theorem readMenuChoice_overflow_uncaught :
  readMenuChoice 2 ["99999999999"; "1"] "" = (Throw out_of_range, ["1"], prompt 2)
  /\ readMenuChoice 2 ["99999999999"; "1"] ""
       <> readMenuChoice 2 ["1"] (prompt 2 +:+ msg_not_a_number)
  /\ status (main 1 ["99999999999"; "1"]) = Aborted out_of_range.
Proof. split; [|split]; [reflexivity|discriminate|reflexivity]. Qed.

(** ** What [cout << n] writes is read back by [stoi] *)

Lemma pretty_N_char_digit y :
  (y < 10)%N -> isdigit (pretty_N_char y) = true /\ digit_val (pretty_N_char y) = Z.of_N y.
Proof.
  intros Hy.
  assert (y = 0 \/ y = 1 \/ y = 2 \/ y = 3 \/ y = 4 \/ y = 5 \/ y = 6 \/ y = 7
          \/ y = 8 \/ y = 9)%N as Hcases by lia.
  repeat (destruct Hcases as [-> | Hcases]; [by split|]). subst y. by split.
Qed.

Lemma pretty_N_go_decimal x s :
  all_digits s = true ->
  all_digits (pretty_N_go x s) = true
  /\ decimal (pretty_N_go x s) = Z.of_N x * 10 ^ Z.of_nat (String.length s) + decimal s.
Proof.
  revert s. induction (N.lt_wf_0 x) as [x _ IH]. intros s Hs.
  destruct (decide (x = 0%N)) as [-> | Hx].
  { rewrite pretty_N_go_0. split; [done|]. lia. }
  rewrite pretty_N_go_step by lia.
  destruct (pretty_N_char_digit (x `mod` 10)%N) as [Hd Hv]; [by apply N.mod_lt|].
  destruct (IH (x `div` 10)%N) with (s := String (pretty_N_char (x `mod` 10)%N) s)
    as [Hall Hdec].
  - apply N.div_lt; lia.
  - cbn [all_digits]. by rewrite Hd, Hs.
  - split; [done|]. rewrite Hdec. cbn [decimal String.length]. rewrite Hv.
    rewrite Nat2Z.inj_succ, Z.pow_succ_r by lia.
    rewrite (N.div_mod x 10) at 3 by done.
    rewrite N2Z.inj_add, N2Z.inj_mul. change (Z.of_N 10) with 10. ring.
Qed.

(** The decimal text of a positive [int] is a non-empty string of digits
    that denotes it. *)
Lemma show_decimal k :
  0 < k -> show k <> EmptyString /\ all_digits (show k) = true /\ decimal (show k) = k.
Proof.
  intros Hk. destruct k as [|p|p]; try lia.
  unfold show, pretty, pretty_Z, pretty, pretty_positive, pretty, pretty_N.
  rewrite decide_False by done.
  destruct (pretty_N_go_decimal (N.pos p) EmptyString) as [Hall Hdec]; [done|].
  cbn [decimal String.length] in Hdec.
  assert (decimal (pretty_N_go (N.pos p) EmptyString) = Z.pos p) as Hval.
  { rewrite Hdec. change (Z.of_N (N.pos p)) with (Z.pos p). lia. }
  split; [|done]. intros Hempty. rewrite Hempty in Hval. cbn in Hval. lia.
Qed.

(** Typing the number of an option selects it. *)
Lemma readMenuChoice_show maxOpt k cin cout :
  1 <= k <= maxOpt -> maxOpt <= INT_MAX ->
  readMenuChoice maxOpt (show k :: cin) cout = (Ret k, cin, cout +:+ prompt maxOpt).
Proof.
  intros Hk Hmax. destruct (show_decimal k) as (Hne & Hall & Hdec); [lia|].
  rewrite <- Hdec at 2. apply readMenuChoice_accept; [done|done|lia|done].
Qed.

(** ** One iteration of the game loop *)

Lemma int_cast_small z : 0 <= z <= INT_MAX -> int_cast z = z.
Proof.
  unfold int_cast, INT_MAX. intros Hz.
  rewrite Z.mod_small by lia. lia.
Qed.

Lemma at_index_Some {A} (v : list A) (k : Z) :
  1 <= k <= Z.of_nat (length v) ->
  exists c, v !! Z.to_nat (k - 1) = Some c /\ at_index v (k - 1) = Some c.
Proof.
  intros Hk. destruct (lookup_lt_is_Some_2 v (Z.to_nat (k - 1))) as [c Hc]; [lia|].
  exists c. split; [done|]. unfold at_index.
  by replace (k - 1 <? 0) with false by (symmetry; apply Z.ltb_ge; lia).
Qed.

Lemma isEnding_spec node : isEnding node = true <-> choices node = [].
Proof. unfold isEnding. by destruct (choices node). Qed.

Lemma isEnding_false node : isEnding node = false <-> choices node <> [].
Proof. unfold isEnding. by destruct (choices node). Qed.

(** C1. Menu correspondence.  In a session whose current scene [node] has
    the choices [c1 .. cn], for every [k] of [1 .. n] (so [n >= 1]):
    whenever [readMenuChoice] returns [k], the iteration ends with
    [currentId] equal to the [nextId] of [ck], the choice at index [k - 1],
    and the session keeps running; and when [n] fits [int], typing the
    number [k] on the next line is one way to make it return [k]. *)
Theorem menu_correspondence (graph : StoryGraph) (s : Session) (node : StoryNode) (k : Z) :
  get graph (currentId s) = Some node ->
  1 <= k <= Z.of_nat (length (choices node)) ->
  let maxOpt := int_cast (Z.of_nat (length (choices node))) in
  let shown := print_menu (choices node) 0 (render node (cout s)) +:+ nl in
  exists ck,
    choices node !! Z.to_nat (k - 1) = Some ck
    /\ (forall cin' cout',
          readMenuChoice maxOpt (cin s) shown = (Ret k, cin', cout') ->
          loop_body graph s =
            {| currentId := nextId ck;
               history := history s ++ [id node];
               cin := cin';
               cout := pauseDots 3 250 cout';
               status := Running |})
    /\ (forall rest,
          Z.of_nat (length (choices node)) <= INT_MAX ->
          cin s = show k :: rest ->
          currentId (loop_body graph s) = nextId ck
          /\ status (loop_body graph s) = Running
          /\ cin (loop_body graph s) = rest).
Proof.
  intros Hnode Hk maxOpt shown.
  destruct (at_index_Some (choices node) k Hk) as (ck & Hck & Hat).
  assert (isEnding node = false) as Hend.
  { apply isEnding_false. intros Hnil. rewrite Hnil in Hk. cbn in Hk. lia. }
  assert (forall cin' cout',
    readMenuChoice maxOpt (cin s) shown = (Ret k, cin', cout') ->
    loop_body graph s =
      {| currentId := nextId ck; history := history s ++ [id node]; cin := cin';
         cout := pauseDots 3 250 cout'; status := Running |}) as Hstep.
  { intros cin' cout' Hread. unfold loop_body. rewrite Hnode, Hend.
    fold maxOpt shown. by rewrite Hread, Hat. }
  exists ck. split; [done|]. split; [done|].
  intros rest Hfit Hcin.
  assert (readMenuChoice maxOpt (cin s) shown = (Ret k, rest, shown +:+ prompt maxOpt))
    as Hread.
  { rewrite Hcin. unfold maxOpt. rewrite int_cast_small by lia.
    by apply readMenuChoice_show. }
  by rewrite (Hstep _ _ Hread).
Qed.

Lemma menu_correspondence_witness :
  exists node,
    get buildGame 0 = Some node
    /\ 1 <= 2 <= Z.of_nat (length (choices node))
    /\ currentId (loop_body buildGame (start 0 ["2"; "1"] "")) = 2
    /\ cin (loop_body buildGame (start 0 ["2"; "1"] "")) = ["1"].
Proof.
  eexists. split; [vm_compute; reflexivity|].
  assert (1 <= 2 <= 2) as Hk by lia. split; [exact Hk|].
  destruct (menu_correspondence buildGame (start 0 ["2"; "1"] "") _ 2 eq_refl Hk)
    as (ck & Hck & _ & Htyped).
  destruct (Htyped ["1"]) as (Hcur & _ & Hcin).
  - vm_compute. discriminate.
  - reflexivity.
  - injection Hck as <-. split; [exact Hcur | exact Hcin].
Defined.

(** ** The loop as a whole *)

Lemma game_loop_stopped fuel graph s :
  status s <> Running -> game_loop fuel graph s = s.
Proof. destruct fuel; [done|]. cbn. by destruct (status s). Qed.

Lemma game_loop_step fuel graph s :
  status s = Running -> game_loop (S fuel) graph s = game_loop fuel graph (loop_body graph s).
Proof. intros Hs. cbn. by rewrite Hs. Qed.

Lemma game_loop_add a b graph s :
  game_loop (a + b) graph s = game_loop b graph (game_loop a graph s).
Proof.
  revert s; induction a as [|a IH]; intros s; [done|].
  destruct (decide (status s = Running)) as [Hs | Hs].
  - change (S a + b)%nat with (S (a + b)). by rewrite !game_loop_step.
  - by rewrite !(game_loop_stopped _ _ s).
Qed.

(** Once a run has stopped, more iterations change nothing. *)
Lemma game_loop_more f f' graph s :
  status (game_loop f graph s) <> Running -> (f <= f')%nat ->
  game_loop f' graph s = game_loop f graph s.
Proof.
  intros Hstop Hle. replace f' with (f + (f' - f))%nat by lia.
  rewrite game_loop_add. by apply game_loop_stopped.
Qed.

(** C2. Terminal detection.  [isEnding] holds exactly of the scenes with no
    choice; and in any session, with whatever history, input and output it
    has, the iteration on such a scene appends the scene's id to the
    history, writes the scene and the path, prompts for nothing, reads
    nothing, leaves [currentId] as it is and ends the loop in [Terminated],
    with exit code 0. *)
Theorem terminal_detection :
  (forall node, isEnding node = true <-> choices node = [])
  /\ (forall graph s node,
        get graph (currentId s) = Some node -> choices node = [] ->
        let ended :=
          {| currentId := currentId s;
             history := history s ++ [id node];
             cin := cin s;
             cout := farewell (history s ++ [id node]) (render node (cout s));
             status := Terminated |} in
        loop_body graph s = ended
        /\ exit_code ended = Some 0
        /\ forall fuel, status s = Running -> game_loop (S fuel) graph s = ended).
Proof.
  split; [apply isEnding_spec|].
  intros graph s node Hnode Hnil ended.
  assert (loop_body graph s = ended) as Hbody.
  { unfold loop_body. rewrite Hnode. by rewrite (proj2 (isEnding_spec node) Hnil). }
  split; [done|]. split; [done|].
  intros fuel Hrun. rewrite game_loop_step by done. rewrite Hbody.
  by apply game_loop_stopped.
Qed.

Lemma terminal_detection_witness :
  exists node,
    get buildGame 8 = Some node /\ choices node = []
    /\ history (game_loop 5 buildGame
                  {| currentId := 8; history := [0; 1; 4]; cin := ["1"]; cout := "";
                     status := Running |}) = [0; 1; 4; 8].
Proof.
  eexists. split; [vm_compute; reflexivity|]. split; [reflexivity|].
  destruct terminal_detection as [_ Hend].
  destruct (Hend buildGame
              {| currentId := 8; history := [0; 1; 4]; cin := ["1"]; cout := "";
                 status := Running |} _ eq_refl eq_refl) as (_ & _ & Hloop).
  rewrite (Hloop 4%nat eq_refl). reflexivity.
Defined.

(** The missing-node branch: the first iteration that finds [currentId]
    unresolved writes the diagnostic with that id and returns 1; the history
    and the input are left as they were, and nothing of a scene is written. *)
Lemma broken_detection graph s :
  get graph (currentId s) = None ->
  let broken :=
    {| currentId := currentId s;
       history := history s;
       cin := cin s;
       cout := cout s +:+ "ERROR: Missing node " +:+ show (currentId s) +:+ nl;
       status := Broken |} in
  loop_body graph s = broken
  /\ exit_code broken = Some 1
  /\ forall fuel, status s = Running -> game_loop (S fuel) graph s = broken.
Proof.
  intros Hnone broken.
  assert (loop_body graph s = broken) as Hbody by (unfold loop_body; by rewrite Hnone).
  split; [done|]. split; [done|].
  intros fuel Hrun. rewrite game_loop_step by done. rewrite Hbody.
  by apply game_loop_stopped.
Qed.

(** An iteration ends in [Broken] only through the missing-node branch. *)
Lemma broken_only_if_missing graph s :
  status (loop_body graph s) = Broken -> get graph (currentId s) = None.
Proof.
  unfold loop_body. destruct (get graph (currentId s)) as [node|]; [|done].
  destruct (isEnding node); [done|].
  destruct (readMenuChoice _ _ _) as [[[pick|e] cin'] cout']; [|done].
  by destruct (at_index _ _).
Qed.

(** C3. A fatal end that is not the missing-node one.  With the built-in
    graph and the first line 99999999999, node 0 is found, rendered and
    recorded, and then the session ends by the uncaught [out_of_range] of
    [stoi]: not [Broken], no exit code returned by [main], and the current
    id resolves. *)
Theorem fatal_end_without_missing_node :
  let s := main 1 ["99999999999"] in
  status s = Aborted out_of_range
  /\ exit_code s = None
  /\ history s = [0]
  /\ is_Some (get buildGame (currentId s))
  /\ forall fuel, (1 <= fuel)%nat -> main fuel ["99999999999"] = s.
Proof.
  intros s. split; [reflexivity|]. split; [reflexivity|]. split; [reflexivity|].
  split; [by eexists|].
  intros fuel Hfuel. unfold main, session. by apply game_loop_more.
Qed.

(** ** The end-to-end scenario *)

Lemma selections_stopped fuel graph s :
  status s <> Running -> selections fuel graph s = [].
Proof. destruct fuel; [done|]. cbn. by destruct (status s). Qed.

Lemma selections_add a b graph s :
  selections (a + b) graph s
    = selections a graph s ++ selections b graph (game_loop a graph s).
Proof.
  revert s; induction a as [|a IH]; intros s; [done|].
  destruct (decide (status s = Running)) as [Hs | Hs].
  - rewrite game_loop_step by done. change (S a + b)%nat with (S (a + b)).
    cbn [selections]. rewrite Hs, IH. by rewrite app_assoc.
  - by rewrite (game_loop_stopped _ _ s), !selections_stopped.
Qed.

(** Once a run has stopped, more iterations make no more selections. *)
Lemma selections_more f f' graph s :
  status (game_loop f graph s) <> Running -> (f <= f')%nat ->
  selections f' graph s = selections f graph s.
Proof.
  intros Hstop Hle. replace f' with (f + (f' - f))%nat by lia.
  rewrite selections_add, (selections_stopped (f' - f)) by done. apply app_nil_r.
Qed.

(** C7. End-to-end scenario.  On the graph of scene 0 with choices to 1 and
    2, scene 1 without choices and scene 2 with one choice to 1, started at
    id 0 with 2 then 1 typed, the selections of the session are 2 then 1 and
    it is [Terminated] after three iterations, with history 0, 2, 1 and exit
    code 0, and stays so. *)
Theorem end_to_end_scenario (t0 t1 t2 l01 l02 l21 cout0 : string) (fuel : nat) :
  (3 <= fuel)%nat ->
  let s := session fuel (scenario t0 t1 t2 l01 l02 l21) 0 ["2"; "1"] cout0 in
  status s = Terminated /\ history s = [0; 2; 1] /\ exit_code s = Some 0 /\ cin s = []
  /\ selections fuel (scenario t0 t1 t2 l01 l02 l21) (start 0 ["2"; "1"] cout0) = [2; 1].
Proof.
  intros Hfuel s. subst s. unfold session.
  rewrite (game_loop_more 3 fuel) by (try done; vm_compute; discriminate).
  rewrite (selections_more 3 fuel) by (try done; vm_compute; discriminate).
  vm_compute. done.
Qed.

Lemma end_to_end_scenario_witness :
  (3 <= 3)%nat
  /\ history (session 3 (scenario "start" "end" "middle" "a" "b" "c") 0 ["2"; "1"] "")
     = [0; 2; 1].
Proof.
  assert (3 <= 3)%nat as Hfuel by lia.
  split; [exact Hfuel|].
  exact (proj1 (proj2 (end_to_end_scenario "start" "end" "middle" "a" "b" "c" "" 3 Hfuel))).
Defined.

(** ** Determinism *)

(** What [readMenuChoice] returns and what it leaves of the input do not
    depend on what is on the console. *)
Lemma readMenuChoice_cout_irrelevant maxOpt cin c1 c2 :
  (readMenuChoice maxOpt cin c1).1 = (readMenuChoice maxOpt cin c2).1.
Proof.
  revert c1 c2; induction cin as [|line cin IH]; intros c1 c2; [done|].
  rewrite !readMenuChoice_cons. cbv zeta.
  repeat case_match; try done; apply IH.
Qed.

Lemma loop_body_nav graph s1 s2 :
  nav s1 = nav s2 -> nav (loop_body graph s1) = nav (loop_body graph s2).
Proof.
  destruct s1 as [i1 h1 in1 out1 st1], s2 as [i2 h2 in2 out2 st2].
  unfold nav. cbn [currentId history cin cout status]. intros [= -> -> -> ->].
  unfold loop_body. cbn [currentId history cin cout status].
  destruct (get graph i2) as [node|]; [|done].
  destruct (isEnding node); [done|].
  set (m := int_cast _).
  pose proof (readMenuChoice_cout_irrelevant m in2
    (print_menu (choices node) 0 (render node out1) +:+ nl)
    (print_menu (choices node) 0 (render node out2) +:+ nl)) as Hsame.
  destruct (readMenuChoice m in2 (print_menu (choices node) 0 (render node out1) +:+ nl))
    as [[r1 rest1] o1].
  destruct (readMenuChoice m in2 (print_menu (choices node) 0 (render node out2) +:+ nl))
    as [[r2 rest2] o2].
  cbn in Hsame. injection Hsame as -> ->.
  destruct r2 as [pick|e]; [|done].
  by destruct (at_index (choices node) (pick - 1)).
Qed.

Lemma game_loop_nav fuel graph s1 s2 :
  nav s1 = nav s2 -> nav (game_loop fuel graph s1) = nav (game_loop fuel graph s2).
Proof.
  revert s1 s2; induction fuel as [|fuel IH]; intros s1 s2 Hnav; [done|].
  assert (status s1 = status s2) as Hst by (unfold nav in Hnav; congruence).
  cbn. rewrite <- Hst. destruct (status s1); try done.
  by apply IH, loop_body_nav.
Qed.

(** Two runs that are at the same place, that both come to an end and in
    which [readMenuChoice] returns the same selections, record the same
    history: the lines typed matter through the selections only. *)
Lemma selections_history graph f1 :
  forall f2 s1 s2,
    currentId s1 = currentId s2 -> history s1 = history s2 -> status s1 = status s2 ->
    status (game_loop f1 graph s1) <> Running ->
    status (game_loop f2 graph s2) <> Running ->
    selections f1 graph s1 = selections f2 graph s2 ->
    history (game_loop f1 graph s1) = history (game_loop f2 graph s2).
Proof.
  induction f1 as [|f1 IH]; intros f2 s1 s2 Hid Hhist Hst Hend1 Hend2 Hsel.
  { cbn in Hend1. cbn [game_loop]. rewrite game_loop_stopped by congruence. done. }
  destruct (decide (status s1 = Running)) as [Hrun | Hstop].
  2: { rewrite !game_loop_stopped by congruence. done. }
  assert (status s2 = Running) as Hrun2 by congruence.
  destruct f2 as [|f2]; [cbn in Hend2; congruence|].
  rewrite game_loop_step in Hend1, Hend2 |- * by done.
  rewrite game_loop_step by done.
  cbn [selections] in Hsel. rewrite Hrun, Hrun2 in Hsel.
  revert Hend1 Hend2 Hsel. unfold selection, loop_body.
  rewrite <- Hid, <- Hhist.
  destruct (get graph (currentId s1)) as [node|].
  2: { intros _ _ _. by rewrite !game_loop_stopped. }
  destruct (isEnding node).
  { intros _ _ _. by rewrite !game_loop_stopped. }
  destruct (readMenuChoice _ (cin s1) _) as [[[p1|e1] in1] out1];
    destruct (readMenuChoice _ (cin s2) _) as [[[p2|e2] in2] out2].
  - destruct (at_index (choices node) (p1 - 1)) as [c1|] eqn:Hat1.
    + intros Hend1 Hend2 [= <- Hsel]. rewrite Hat1 in Hend2, Hsel |- *.
      by apply IH.
    + intros _ _ [= <- _]. rewrite Hat1. by rewrite !game_loop_stopped.
  - intros _ _ Hsel. rewrite (selections_stopped f2) in Hsel by done. done.
  - intros _ _ Hsel. rewrite (selections_stopped f1) in Hsel by done. done.
  - intros _ _ _. by rewrite !game_loop_stopped.
Qed.

(** C8. Determinism.  For a fixed graph and start id, any two runs that
    come to an end record the same history (a) when they read the same
    input, whatever number of iterations each was allowed and whatever
    text was on the console before: then they also end in the same state,
    at the same id, with the same input left; and (b) when their sequences
    of selections are the same, whatever lines were typed to make them. *)
Theorem session_deterministic (graph : StoryGraph) (startId : Z)
    (fuel1 fuel2 : nat) (cout1 cout2 : string) :
  (forall input,
     let run1 := session fuel1 graph startId input cout1 in
     let run2 := session fuel2 graph startId input cout2 in
     status run1 <> Running -> status run2 <> Running ->
     history run1 = history run2
     /\ status run1 = status run2
     /\ currentId run1 = currentId run2
     /\ cin run1 = cin run2)
  /\ (forall input1 input2,
        let run1 := session fuel1 graph startId input1 cout1 in
        let run2 := session fuel2 graph startId input2 cout2 in
        status run1 <> Running -> status run2 <> Running ->
        selections fuel1 graph (start startId input1 cout1)
          = selections fuel2 graph (start startId input2 cout2) ->
        history run1 = history run2).
Proof.
  split.
  - intros input run1 run2 Hstop1 Hstop2. subst run1 run2. unfold session in *.
    set (s1 := start startId input cout1) in *.
    set (s2 := start startId input cout2) in *.
    rewrite <- (game_loop_more fuel1 (fuel1 `max` fuel2) graph s1) by (done || lia).
    rewrite <- (game_loop_more fuel2 (fuel1 `max` fuel2) graph s2) by (done || lia).
    assert (nav (game_loop (fuel1 `max` fuel2) graph s1)
            = nav (game_loop (fuel1 `max` fuel2) graph s2)) as Hnav
      by (by apply game_loop_nav).
    unfold nav in Hnav. by injection Hnav as -> -> -> ->.
  - intros input1 input2 run1 run2 Hstop1 Hstop2 Hsel. subst run1 run2.
    unfold session in *. by apply selections_history.
Qed.

Lemma session_deterministic_witness :
  let typed1 := ["2"; "x"; "1"; "2"] in
  let typed2 := [""; "2"; "1"; "99"; "2"; "1"; "1"] in
  status (session 5 buildGame 0 typed1 "") <> Running
  /\ status (session 9 buildGame 0 typed1 "earlier text") <> Running
  /\ status (session 9 buildGame 0 typed2 "earlier text") <> Running
  /\ selections 5 buildGame (start 0 typed1 "")
     = selections 9 buildGame (start 0 typed2 "earlier text")
  /\ history (session 5 buildGame 0 typed1 "")
     = history (session 9 buildGame 0 typed1 "earlier text")
  /\ history (session 5 buildGame 0 typed1 "")
     = history (session 9 buildGame 0 typed2 "earlier text").
Proof.
  intros typed1 typed2.
  assert (status (session 5 buildGame 0 typed1 "") <> Running) as H1
    by (vm_compute; discriminate).
  assert (status (session 9 buildGame 0 typed1 "earlier text") <> Running) as H2
    by (vm_compute; discriminate).
  assert (status (session 9 buildGame 0 typed2 "earlier text") <> Running) as H3
    by (vm_compute; discriminate).
  assert (selections 5 buildGame (start 0 typed1 "")
          = selections 9 buildGame (start 0 typed2 "earlier text")) as Hsel
    by (vm_compute; reflexivity).
  destruct (session_deterministic buildGame 0 5 9 "" "earlier text") as [Hsame Hpicks].
  split; [exact H1|]. split; [exact H2|]. split; [exact H3|]. split; [exact Hsel|].
  split.
  - exact (proj1 (Hsame typed1 H1 H2)).
  - exact (Hpicks typed1 typed2 H1 H3 Hsel).
Defined.

(** ** The story graph *)

Lemma get_addNode_eq node g : get (addNode node g) (id node) = Some node.
Proof. unfold get, addNode. cbn [nodes]. apply lookup_insert_eq. Qed.

Lemma get_addNode_ne node g i : i <> id node -> get (addNode node g) i = get g i.
Proof. intros Hne. unfold get, addNode. cbn [nodes]. by apply lookup_insert_ne. Qed.

Lemma get_upserts ns g i :
  get (upserts ns g) i = match latest i ns with Some node => Some node | None => get g i end.
Proof.
  unfold upserts, latest. induction ns as [|node ns IH] using rev_ind; [done|].
  rewrite fold_left_app, rev_app_distr. cbn [fold_left rev app find].
  destruct (Z.eqb_spec (id node) i) as [<- | Hne].
  - apply get_addNode_eq.
  - rewrite get_addNode_ne by done. apply IH.
Qed.

(** A node is found under its own id: what [main] appends to the history,
    [node->id], is the id it looked up. *)
Lemma get_upserts_id ns i node :
  get (upserts ns emptyGraph) i = Some node -> id node = i.
Proof.
  rewrite get_upserts. unfold latest.
  destruct (find _ _) as [found|] eqn:Hfind; [|done].
  intros [= ->]. apply find_some in Hfind as [_ Hid]. by apply Z.eqb_eq.
Qed.

(** C9. StoryGraph contract.  [addNode] is a total function; after it,
    [get] of the node's id returns that node, whatever was filed under the
    id before, and [get] of any other id is unchanged.  So after a sequence
    of [addNode] calls on a new graph, [get i] returns the node most
    recently added under [i], and [None], the null pointer, for an id under
    which nothing was added. *)
Theorem storygraph_contract :
  (forall node g, get (addNode node g) (id node) = Some node)
  /\ (forall node g i, i <> id node -> get (addNode node g) i = get g i)
  /\ (forall ns i, get (upserts ns emptyGraph) i = latest i ns)
  /\ (forall ns i, (i ∉ map id ns) -> get (upserts ns emptyGraph) i = None).
Proof.
  split; [apply get_addNode_eq|]. split; [apply get_addNode_ne|].
  assert (forall ns i, get (upserts ns emptyGraph) i = latest i ns) as Hlatest.
  { intros ns i. rewrite get_upserts. by destruct (latest i ns). }
  split; [done|].
  intros ns i Hnotin. rewrite Hlatest. unfold latest.
  destruct (find _ _) as [node|] eqn:Hfind; [|done].
  apply find_some in Hfind as [Hin Hid]. exfalso. apply Hnotin.
  apply Z.eqb_eq in Hid as <-. apply list_elem_of_In, in_map.
  by apply in_rev.
Qed.

Lemma storygraph_contract_witness :
  let a := {| id := 7; text := "first"; choices := [] |} in
  let b := {| id := 7; text := "second"; choices := [ {| label := "on"; nextId := 7 |} ] |} in
  let c := {| id := 3; text := "third"; choices := [] |} in
  7 <> id c /\ (5 ∉ map id [a; b; c])
  /\ get (addNode c (addNode b (addNode a emptyGraph))) 7 = Some b
  /\ get (upserts [a; b; c] emptyGraph) 5 = None.
Proof.
  intros a b c.
  assert (7 <> id c) as Hne by (cbn; lia).
  assert (5 ∉ map id [a; b; c]) as Hnotin.
  { cbn. rewrite !not_elem_of_cons. repeat split; try lia. apply not_elem_of_nil. }
  destruct storygraph_contract as (Heq & Hother & _ & Habsent).
  split; [exact Hne|]. split; [exact Hnotin|]. split.
  - rewrite (Hother c _ 7 Hne). exact (Heq b _).
  - exact (Habsent [a; b; c] 5 Hnotin).
Defined.

(** ** The shipped graph *)

Lemma well_formedb_sound g : well_formedb g = true -> well_formed g.
Proof.
  unfold well_formedb, well_formed, get. intros Hall i node c Hnode Hc.
  rewrite forallb_forall in Hall.
  assert (In (i, node) (map_to_list (nodes g))) as Hin
    by (by apply list_elem_of_In, elem_of_map_to_list).
  specialize (Hall _ Hin). cbn [snd] in Hall. rewrite forallb_forall in Hall.
  apply list_elem_of_In in Hc. specialize (Hall _ Hc).
  by apply bool_decide_eq_true_1 in Hall.
Qed.

(** In a well-formed graph an iteration that starts on a resolved id does
    not end in [Broken], and if it goes on, it goes on from a resolved id. *)
Lemma loop_body_resolved g s :
  well_formed g -> is_Some (get g (currentId s)) ->
  status (loop_body g s) <> Broken
  /\ (status (loop_body g s) = Running -> is_Some (get g (currentId (loop_body g s)))).
Proof.
  intros Hwf [node Hnode]. unfold loop_body. rewrite Hnode.
  destruct (isEnding node); [done|].
  destruct (readMenuChoice _ _ _) as [[[pick|e] cin'] cout']; [|done].
  destruct (at_index (choices node) (pick - 1)) as [c|] eqn:Hat; [|done].
  split; [done|]. intros _. cbn [currentId].
  apply (Hwf (currentId s) node c Hnode).
  unfold at_index in Hat. destruct (pick - 1 <? 0); [done|].
  by eapply list_elem_of_lookup_2.
Qed.

Lemma game_loop_resolved fuel g s :
  well_formed g -> status s <> Broken ->
  (status s = Running -> is_Some (get g (currentId s))) ->
  status (game_loop fuel g s) <> Broken
  /\ (status (game_loop fuel g s) = Running ->
      is_Some (get g (currentId (game_loop fuel g s)))).
Proof.
  intros Hwf. revert s. induction fuel as [|fuel IH]; intros s Hnb Hres; [done|].
  destruct (decide (status s = Running)) as [Hrun | Hstop].
  - rewrite game_loop_step by done.
    destruct (loop_body_resolved g s Hwf (Hres Hrun)) as [Hnb' Hres']. by apply IH.
  - by rewrite game_loop_stopped.
Qed.

Lemma buildGame_well_formed : well_formed buildGame.
Proof. apply well_formedb_sound. vm_compute. reflexivity. Qed.

Lemma targetsb_sound lo hi g i node c :
  targetsb lo hi g = true -> get g i = Some node -> c ∈ choices node ->
  lo <= nextId c <= hi.
Proof.
  unfold targetsb, get. intros Hall Hnode Hc.
  rewrite forallb_forall in Hall.
  assert (In (i, node) (map_to_list (nodes g))) as Hin
    by (by apply list_elem_of_In, elem_of_map_to_list).
  specialize (Hall _ Hin). cbn [snd] in Hall. rewrite forallb_forall in Hall.
  apply list_elem_of_In in Hc. specialize (Hall _ Hc). lia.
Qed.

(** C10. The shipped graph is well-formed.  In the graph of [buildGame]
    every choice's [nextId] lies in 1 .. 15 and is the id of a node of the
    graph, each of 1 .. 15 is the target of some choice, and a run of [main]
    is never [Broken], for any input and any number of iterations: as long
    as it runs, its current id resolves. *)
Theorem buildGame_never_broken :
  (forall i node c, get buildGame i = Some node -> c ∈ choices node ->
     1 <= nextId c <= 15 /\ is_Some (get buildGame (nextId c)))
  /\ (forall t, 1 <= t <= 15 ->
        exists i node c, get buildGame i = Some node /\ c ∈ choices node /\ nextId c = t)
  /\ (forall fuel input,
        status (main fuel input) <> Broken
        /\ (status (main fuel input) = Running ->
            is_Some (get buildGame (currentId (main fuel input))))).
Proof.
  split; [|split].
  - intros i node c Hnode Hc. split.
    + by apply (targetsb_sound 1 15 buildGame i node c).
    + by apply (buildGame_well_formed i node c).
  - intros t Ht.
    assert (t = 1 \/ t = 2 \/ t = 3 \/ t = 4 \/ t = 5 \/ t = 6 \/ t = 7 \/ t = 8 \/ t = 9
            \/ t = 10 \/ t = 11 \/ t = 12 \/ t = 13 \/ t = 14 \/ t = 15) as Hcases by lia.
    destruct Hcases as [-> | Hcases]; [by_choice 0 0%nat|].
    destruct Hcases as [-> | Hcases]; [by_choice 0 1%nat|].
    destruct Hcases as [-> | Hcases]; [by_choice 1 0%nat|].
    destruct Hcases as [-> | Hcases]; [by_choice 1 1%nat|].
    destruct Hcases as [-> | Hcases]; [by_choice 2 1%nat|].
    destruct Hcases as [-> | Hcases]; [by_choice 3 0%nat|].
    destruct Hcases as [-> | Hcases]; [by_choice 3 1%nat|].
    destruct Hcases as [-> | Hcases]; [by_choice 4 0%nat|].
    destruct Hcases as [-> | Hcases]; [by_choice 4 1%nat|].
    destruct Hcases as [-> | Hcases]; [by_choice 5 0%nat|].
    destruct Hcases as [-> | Hcases]; [by_choice 6 0%nat|].
    destruct Hcases as [-> | Hcases]; [by_choice 6 1%nat|].
    destruct Hcases as [-> | Hcases]; [by_choice 7 0%nat|].
    destruct Hcases as [-> | Hcases]; [by_choice 7 1%nat|].
    subst t. by_choice 13 0%nat.
  - intros fuel input. unfold main, session.
    apply game_loop_resolved; [apply buildGame_well_formed|done|].
    intros _. by eexists.
Qed.

Lemma buildGame_never_broken_witness :
  exists node c,
    get buildGame 13 = Some node /\ c ∈ choices node
    /\ nextId c = 12 /\ is_Some (get buildGame 12).
Proof.
  assert (exists node c,
            get buildGame 13 = Some node /\ c ∈ choices node /\ nextId c = 12)
    as (node & c & Hnode & Hc & Hnext).
  { eexists; eexists; split; [vm_compute; reflexivity|].
    split; [apply (list_elem_of_lookup_2 _ 1%nat); reflexivity | reflexivity]. }
  exists node, c. split; [exact Hnode|]. split; [exact Hc|]. split; [exact Hnext|].
  rewrite <- Hnext. exact (proj2 (proj1 buildGame_never_broken 13 node c Hnode Hc)).
Defined.

(** * Further properties of the code *)

(** ** Text written to the console *)

Lemma printSlow_append s msPerChar cout : printSlow s msPerChar cout = cout +:+ s.
Proof.
  revert cout; induction s as [|c s IH]; intros cout; cbn [printSlow].
  - by rewrite append_nil_r.
  - rewrite IH, append_assoc. reflexivity.
Qed.

(** X1. [printSlow] writes exactly the text it is given after what is
    already on the console, for every text and every delay: the typewriter
    effect changes no character. *)
Theorem printSlow_text (s : string) (ms1 ms2 : Z) (cout : string) :
  printSlow s ms1 cout = cout +:+ s
  /\ printSlow s ms1 cout = printSlow s ms2 cout
  /\ String.length (printSlow s ms1 cout) = (String.length cout + String.length s)%nat.
Proof.
  rewrite !printSlow_append. split; [done|]. split; [done|]. apply length_append.
Qed.

Lemma dots_snoc n :
  pieces (replicate n ".") +:+ "." = "." +:+ pieces (replicate n ".").
Proof.
  induction n as [|n IH]; [done|].
  change (pieces (replicate (S n) ".")) with ("." +:+ pieces (replicate n ".")).
  by rewrite append_assoc, IH.
Qed.

Lemma iter_dots n cout :
  Nat.iter n (fun out => out +:+ ".") cout = cout +:+ pieces (replicate n ".").
Proof.
  induction n as [|n IH].
  - cbn. by rewrite append_nil_r.
  - rewrite Nat.iter_succ, IH, append_assoc. f_equal. apply dots_snoc.
Qed.

Lemma pauseDots_append dots ms cout :
  pauseDots dots ms cout = cout +:+ pieces (replicate (Z.to_nat dots) ".") +:+ nl.
Proof. unfold pauseDots. by rewrite iter_dots, append_assoc. Qed.

Lemma length_pieces_dots n : String.length (pieces (replicate n ".")) = n.
Proof.
  induction n as [|n IH]; [done|].
  change (pieces (replicate (S n) ".")) with ("." +:+ pieces (replicate n ".")).
  rewrite length_append, IH. reflexivity.
Qed.

(** X2. [pauseDots(dots, ms)] writes [dots] full stops and one line feed
    after what is on the console; when [dots] is zero or negative the loop
    body never runs and only the line feed is written. *)
Theorem pauseDots_text (dots ms : Z) (cout : string) :
  pauseDots dots ms cout = cout +:+ pieces (replicate (Z.to_nat dots) ".") +:+ nl
  /\ String.length (pauseDots dots ms cout)
     = (String.length cout + Z.to_nat (Z.max 0 dots) + 1)%nat
  /\ (dots <= 0 -> pauseDots dots ms cout = cout +:+ nl).
Proof.
  split; [apply pauseDots_append|]. split.
  - rewrite pauseDots_append, !length_append, length_pieces_dots.
    replace (Z.to_nat (Z.max 0 dots)) with (Z.to_nat dots) by lia.
    change (String.length nl) with 1%nat. lia.
  - intros Hle. rewrite pauseDots_append.
    replace (Z.to_nat dots) with 0%nat by lia. reflexivity.
Qed.

Lemma pauseDots_text_witness :
  -2 <= 0 /\ pauseDots (-2) 250 "abc" = "abc" +:+ nl /\ pauseDots 3 250 "" = "..." +:+ nl.
Proof.
  assert (-2 <= 0) as Hle by lia.
  split; [exact Hle|]. split.
  - exact (proj2 (proj2 (pauseDots_text (-2) 250 "abc")) Hle).
  - exact (proj1 (pauseDots_text 3 250 "")).
Defined.

Lemma print_path_join rest i cout :
  print_path rest i (i + length rest) cout
    = cout +:+ String.concat " -> " (map show rest).
Proof.
  revert i cout; induction rest as [|x rest IH]; intros i cout.
  - cbn. by rewrite append_nil_r.
  - cbn [print_path]. destruct rest as [|y rest].
    + replace (S i <? i + length [x])%nat with false
        by (symmetry; apply Nat.ltb_ge; cbn; lia).
      cbn [print_path map String.concat]. by rewrite append_nil_r.
    + replace (S i <? i + length (x :: y :: rest))%nat with true
        by (symmetry; apply Nat.ltb_lt; cbn; lia).
      replace (i + length (x :: y :: rest))%nat with (S i + length (y :: rest))%nat
        by (cbn; lia).
      rewrite IH. rewrite !append_assoc. reflexivity.
Qed.

(** X3. The ending branch writes the separator line, "Path Taken: ", the
    recorded ids in visit order joined by " -> " (no arrow after the last,
    nothing for an empty history), two line feeds and the farewell line. *)
Theorem farewell_text (h : list Z) (cout : string) :
  farewell h cout
    = cout +:+ rule +:+ "Path Taken: " +:+ String.concat " -> " (map show h)
        +:+ nl +:+ nl +:+ "Farewell, Elyndri explorer." +:+ nl.
Proof.
  unfold farewell. rewrite (print_path_join h 0). by rewrite !append_assoc.
Qed.

Lemma print_menu_lines cs i cout :
  print_menu cs i cout
    = cout +:+ pieces (imap (fun j c => menu_line (S (i + j)) c) cs).
Proof.
  revert i cout; induction cs as [|c cs IH]; intros i cout.
  - cbn. by rewrite append_nil_r.
  - cbn [print_menu]. rewrite IH. rewrite imap_cons. cbn [pieces fold_right].
    fold (pieces (imap ((fun j c => menu_line (S (i + j)) c) ∘ S) cs)).
    rewrite Nat.add_0_r.
    change (cout +:+ "  " +:+ show (Z.of_nat (S i)) +:+ ") " +:+ label c +:+ nl)
      with (cout +:+ menu_line (S i) c).
    rewrite append_assoc. do 3 f_equal.
    apply imap_ext. intros j c' _. cbn. by rewrite Nat.add_succ_r.
Qed.

(** X4. The menu is one line per choice, in the order of the node's choice
    list, and the choice at index [j] is shown under the number [j + 1]: the
    number [readMenuChoice] has to return for [main] to follow it. *)
Theorem print_menu_numbering (cs : list Choice) (cout : string) :
  print_menu cs 0 cout = cout +:+ pieces (imap (fun j c => menu_line (S j) c) cs)
  /\ length (imap (fun j c => menu_line (S j) c) cs) = length cs
  /\ (forall j c, cs !! j = Some c ->
        imap (fun j c => menu_line (S j) c) cs !! j
          = Some ("  " +:+ show (Z.of_nat j + 1) +:+ ") " +:+ label c +:+ nl)
        /\ at_index cs (Z.of_nat j + 1 - 1) = Some c).
Proof.
  split; [apply (print_menu_lines cs 0)|]. split; [apply length_imap|].
  intros j c Hj. split.
  - rewrite list_lookup_imap, Hj. cbn. unfold menu_line.
    by replace (Z.of_nat (S j)) with (Z.of_nat j + 1) by lia.
  - unfold at_index.
    replace (Z.of_nat j + 1 - 1 <? 0) with false by (symmetry; apply Z.ltb_ge; lia).
    by replace (Z.to_nat (Z.of_nat j + 1 - 1)) with j by lia.
Qed.

Lemma print_menu_numbering_witness :
  let cs := [ {| label := "left"; nextId := 4 |}; {| label := "right"; nextId := 9 |} ] in
  cs !! 1%nat = Some {| label := "right"; nextId := 9 |}
  /\ print_menu cs 0 "" = "  1) left" +:+ nl +:+ "  2) right" +:+ nl
  /\ at_index cs (2 - 1) = Some {| label := "right"; nextId := 9 |}.
Proof.
  intros cs.
  assert (cs !! 1%nat = Some {| label := "right"; nextId := 9 |}) as Hj by reflexivity.
  split; [exact Hj|]. split.
  - rewrite (proj1 (print_menu_numbering cs "")). reflexivity.
  - exact (proj2 (proj2 (proj2 (print_menu_numbering cs "")) 1%nat _ Hj)).
Defined.

(** ** More on the input reader *)

(** A returned selection is the fallback at the end of the input, or a
    parsed number inside the bounds. *)
Lemma readMenuChoice_ret maxOpt cin cout k cin' cout' :
  readMenuChoice maxOpt cin cout = (Ret k, cin', cout') ->
  (k = 1 /\ cin' = []) \/ 1 <= k <= maxOpt.
Proof.
  revert cout; induction cin as [|line cin IH]; intros cout.
  - cbn. intros [= <- <- _]. by left.
  - rewrite readMenuChoice_cons. cbv zeta.
    destruct (String.eqb line EmptyString); [apply IH|].
    destruct (negb (scan_numeric line true)); [apply IH|].
    destruct (stoi line) as [v|e]; [|done].
    destruct ((v <? 1) || (maxOpt <? v)) eqn:Hout; [apply IH|].
    intros [= <- _ _]. right. apply orb_false_iff in Hout. lia.
Qed.

(** X5. Whatever is typed, a selection returned by [readMenuChoice] for a
    bound [maxOpt >= 1] lies in [1 .. maxOpt]; for a bound below 1 no line
    is ever accepted, and the call returns only at the end of the input,
    with the fallback 1. *)
Theorem readMenuChoice_in_range (maxOpt : Z) (cin : list string) (cout : string)
    (k : Z) (cin' : list string) (cout' : string) :
  readMenuChoice maxOpt cin cout = (Ret k, cin', cout') ->
  (1 <= maxOpt -> 1 <= k <= maxOpt)
  /\ (maxOpt < 1 -> k = 1 /\ cin' = []).
Proof.
  intros Hret. apply readMenuChoice_ret in Hret. split; intros Hmax.
  - destruct Hret as [[-> _] | Hk]; lia.
  - destruct Hret as [[-> ->] | Hk]; [done | lia].
Qed.

Lemma readMenuChoice_in_range_witness :
  readMenuChoice 3 ["7"; "3"; "1"] "" = (Ret 3, ["1"], prompt 3 +:+ msg_invalid_option +:+ prompt 3)
  /\ 1 <= 3 /\ 1 <= 3 <= 3
  /\ 0 < 1 /\ (readMenuChoice 0 ["1"; "0"] "").1 = (Ret 1, []).
Proof.
  assert (readMenuChoice 3 ["7"; "3"; "1"] ""
          = (Ret 3, ["1"], prompt 3 +:+ msg_invalid_option +:+ prompt 3)) as Hret
    by reflexivity.
  assert (1 <= 3) as Hmax by lia.
  split; [exact Hret|]. split; [exact Hmax|]. split.
  - exact (proj1 (readMenuChoice_in_range 3 _ _ _ _ _ Hret) Hmax).
  - assert (0 < 1) as Hlow by lia. split; [exact Hlow|].
    destruct (readMenuChoice 0 ["1"; "0"] "") as [[[k|e] rest] out] eqn:Hcall;
      [|vm_compute in Hcall; discriminate Hcall].
    destruct (proj2 (readMenuChoice_in_range 0 _ _ _ _ _ Hcall) Hlow) as [-> ->].
    reflexivity.
Defined.

(** X6. The only exception that leaves [readMenuChoice] is [out_of_range]:
    [stoi] is called on non-empty strings of digits only, so it never fails
    with [invalid_argument]; and when it throws, the line before what is
    left of the input is such a string, too large for [int]. *)
Theorem readMenuChoice_throws (maxOpt : Z) (cin : list string) (cout : string)
    (e : exn) (cin' : list string) (cout' : string) :
  readMenuChoice maxOpt cin cout = (Throw e, cin', cout') ->
  e = out_of_range
  /\ exists before line,
       cin = before ++ line :: cin'
       /\ line <> EmptyString /\ all_digits line = true /\ INT_MAX < decimal line.
Proof.
  revert cout; induction cin as [|line cin IH]; intros cout; [done|].
  rewrite readMenuChoice_cons, scan_numeric_spec, andb_true_l. cbv zeta.
  assert (forall c, readMenuChoice maxOpt cin c = (Throw e, cin', cout') ->
            e = out_of_range
            /\ exists before line0,
                 line :: cin = before ++ line0 :: cin'
                 /\ line0 <> EmptyString /\ all_digits line0 = true
                 /\ INT_MAX < decimal line0) as Hlater.
  { intros c Hc. destruct (IH c Hc) as (He & before & line0 & -> & Hline0).
    split; [done|]. by exists (line :: before), line0. }
  destruct (String.eqb_spec line EmptyString) as [->|Hne]; [apply Hlater|].
  destruct (all_digits line) eqn:Hd; cbn [negb]; [|apply Hlater].
  rewrite stoi_all_digits by done.
  destruct (INT_MAX <? decimal line) eqn:Hbig.
  - intros [= <- <- _]. split; [done|]. exists [], line.
    apply Z.ltb_lt in Hbig. done.
  - destruct ((decimal line <? 1) || (maxOpt <? decimal line)); [apply Hlater|done].
Qed.

Lemma readMenuChoice_throws_witness :
  readMenuChoice 2 ["x"; "4294967297"; "1"] ""
    = (Throw out_of_range, ["1"], prompt 2 +:+ msg_not_a_number +:+ prompt 2)
  /\ exists before line,
       ["x"; "4294967297"; "1"] = before ++ line :: ["1"] /\ INT_MAX < decimal line.
Proof.
  assert (readMenuChoice 2 ["x"; "4294967297"; "1"] ""
          = (Throw out_of_range, ["1"], prompt 2 +:+ msg_not_a_number +:+ prompt 2))
    as Hcall by reflexivity.
  split; [exact Hcall|].
  destruct (readMenuChoice_throws 2 _ _ _ _ _ Hcall)
    as (_ & before & line & Hsplit & _ & _ & Hbig).
  exists before, line. split; [exact Hsplit | exact Hbig].
Defined.

Lemma rejected_false maxOpt line :
  rejected maxOpt line = false ->
  String.eqb line EmptyString = false /\ all_digits line = true
  /\ match stoi line with
     | Ret v => (v <? 1) || (maxOpt <? v) = false
     | Throw _ => True
     end.
Proof.
  unfold rejected. intros [[Hne Hd%negb_false_iff]%orb_false_iff Hv]%orb_false_iff.
  split; [done|]. split; [done|]. by destruct (stoi line).
Qed.

(** X7. [readMenuChoice] is decided by the first line it does not pass over:
    after any number of rejected lines (blank, not all digits, or out of
    [1 .. maxOpt]), the call ends on the first other line with what [stoi]
    makes of that line, the value or the exception, and leaves the lines
    after it unread. *)
Theorem readMenuChoice_first_live (maxOpt : Z) (junk : list string) (line : string)
    (rest : list string) (cout : string) :
  forallb (rejected maxOpt) junk = true ->
  rejected maxOpt line = false ->
  (readMenuChoice maxOpt (junk ++ line :: rest) cout).1 = (stoi line, rest).
Proof.
  intros Hjunk Hline. revert cout. induction junk as [|j junk IH]; intros cout.
  - apply rejected_false in Hline as (Hne & Hd & Hv).
    cbn [app]. rewrite readMenuChoice_cons, scan_numeric_spec, andb_true_l. cbv zeta.
    rewrite Hne, Hd. cbn [negb]. destruct (stoi line) as [v|e]; [|done].
    by rewrite Hv.
  - cbn [forallb] in Hjunk. apply andb_true_iff in Hjunk as [Hj Hjunk].
    cbn [app].
    destruct (readMenuChoice_rejected maxOpt j (junk ++ line :: rest) cout Hj)
      as [cout' ->].
    by apply IH.
Qed.

Lemma readMenuChoice_first_live_witness :
  forallb (rejected 2) [""; " 1"; "-1"; "3"; "1.0"] = true
  /\ rejected 2 "002" = false
  /\ (readMenuChoice 2 ([""; " 1"; "-1"; "3"; "1.0"] ++ "002" :: ["1"]) "").1
     = (Ret 2, ["1"]).
Proof.
  assert (forallb (rejected 2) [""; " 1"; "-1"; "3"; "1.0"] = true) as Hjunk
    by reflexivity.
  assert (rejected 2 "002" = false) as Hline by reflexivity.
  split; [exact Hjunk|]. split; [exact Hline|].
  exact (readMenuChoice_first_live 2 _ "002" ["1"] "" Hjunk Hline).
Defined.

(** X8. [readMenuChoice] reads lines from the front of the input, in order:
    what it leaves is the input less the lines it read; and it only adds to
    the console, at least its prompt. *)
Theorem readMenuChoice_reads_in_order (maxOpt : Z) (cin : list string) (cout : string) :
  (exists used, cin = used ++ (readMenuChoice maxOpt cin cout).1.2)
  /\ extends cout (readMenuChoice maxOpt cin cout).2
  /\ (String.length cout < String.length (readMenuChoice maxOpt cin cout).2)%nat.
Proof.
  destruct (readMenuChoice_extends maxOpt cin cout) as (used & Hused & Hout).
  split; [by exists used|]. split; [done|].
  pose proof (readMenuChoice_writes maxOpt cin cout).
  pose proof (prompt_nonempty maxOpt). lia.
Qed.

(** ** More on the game loop *)

Lemma int_cast_le z : 0 <= z -> int_cast z <= z.
Proof.
  intros Hz. unfold int_cast.
  pose proof (Z.mod_le (z + 2147483648) 4294967296). lia.
Qed.

Lemma readMenuChoice_throw_kind maxOpt cin cout e cin' cout' :
  readMenuChoice maxOpt cin cout = (Throw e, cin', cout') -> e = out_of_range.
Proof.
  revert cout; induction cin as [|line cin IH]; intros cout; [done|].
  rewrite readMenuChoice_cons, scan_numeric_spec, andb_true_l. cbv zeta.
  destruct (String.eqb_spec line EmptyString) as [->|Hne]; [apply IH|].
  destruct (all_digits line) eqn:Hd; cbn [negb]; [|apply IH].
  rewrite stoi_all_digits by done.
  destruct (INT_MAX <? decimal line); [by intros [= <- _ _]|].
  destruct ((decimal line <? 1) || (maxOpt <? decimal line)); [apply IH|done].
Qed.

(** What an iteration does when the current id is found. *)
Lemma loop_body_found graph s node :
  get graph (currentId s) = Some node ->
  history (loop_body graph s) = history s ++ [id node]
  /\ status (loop_body graph s) <> Broken
  /\ status (loop_body graph s) <> Undefined
  /\ (forall e, status (loop_body graph s) = Aborted e -> e = out_of_range)
  /\ (status (loop_body graph s) = Terminated ->
      choices node = [] /\ currentId (loop_body graph s) = currentId s)
  /\ (status (loop_body graph s) = Running ->
      exists c, c ∈ choices node /\ currentId (loop_body graph s) = nextId c).
Proof.
  intros Hnode. unfold loop_body. rewrite Hnode.
  destruct (isEnding node) eqn:Hend.
  { apply isEnding_spec in Hend. by repeat split. }
  apply isEnding_false in Hend.
  destruct (readMenuChoice _ _ _) as [[[pick|e] cin'] cout'] eqn:Hread.
  2: { apply readMenuChoice_throw_kind in Hread as ->.
       repeat split; try done. by intros e [= <-]. }
  assert (1 <= pick <= Z.of_nat (length (choices node))) as Hpick.
  { assert (1 <= Z.of_nat (length (choices node))) as Hlen
      by (destruct (choices node); [done | cbn; lia]).
    pose proof (int_cast_le (Z.of_nat (length (choices node)))).
    apply readMenuChoice_ret in Hread as [[-> _] | Hrange]; lia. }
  destruct (at_index_Some (choices node) pick Hpick) as (c & Hc & ->).
  repeat split; try done. intros _. exists c. split; [|done].
  by eapply list_elem_of_lookup_2.
Qed.

Lemma loop_body_in_bounds graph s : status (loop_body graph s) <> Undefined.
Proof.
  destruct (get graph (currentId s)) as [node|] eqn:Hnode.
  - by destruct (loop_body_found graph s node Hnode) as (_ & _ & ? & _).
  - unfold loop_body. by rewrite Hnode.
Qed.

Lemma game_loop_in_bounds graph fuel s :
  status s <> Undefined -> status (game_loop fuel graph s) <> Undefined.
Proof.
  revert s. induction fuel as [|fuel IH]; intros s Hs; [done|].
  destruct (decide (status s = Running)) as [Hrun | Hstop].
  - rewrite game_loop_step by done. apply IH, loop_body_in_bounds.
  - by rewrite game_loop_stopped.
Qed.

(** X9. The read [node->choices[pick - 1]] is never out of range: whatever
    the graph and whatever is typed, also at the end of the input and also
    when the number of choices does not fit [int], no iteration and no run
    of the loop ends in [Undefined]. *)
Theorem choice_index_in_range (graph : StoryGraph) (fuel : nat) (s : Session) :
  status (loop_body graph s) <> Undefined
  /\ (status s <> Undefined -> status (game_loop fuel graph s) <> Undefined).
Proof.
  split; [apply loop_body_in_bounds | apply game_loop_in_bounds].
Qed.

Lemma choice_index_in_range_witness :
  status (start 0 [] "") <> Undefined
  /\ status (game_loop 6 buildGame (start 0 [] "")) <> Undefined.
Proof.
  assert (status (start 0 [] "") <> Undefined) as Hs by discriminate.
  split; [exact Hs|].
  exact (proj2 (choice_index_in_range buildGame 6 (start 0 [] "")) Hs).
Defined.

(** A run that has stopped stopped in its last iteration, started from a
    running session. *)
Lemma game_loop_last graph fuel s :
  status s = Running -> status (game_loop fuel graph s) <> Running ->
  exists s', status s' = Running /\ game_loop fuel graph s = loop_body graph s'.
Proof.
  revert s; induction fuel as [|fuel IH]; intros s Hrun Hstop; [done|].
  rewrite game_loop_step in Hstop |- * by done.
  destruct (decide (status (loop_body graph s) = Running)) as [Hgo | Hend].
  - by apply IH.
  - exists s. split; [done|]. by apply game_loop_stopped.
Qed.

(** X10. A run of the loop ends in [Broken] only by the missing-node branch:
    the id it stopped at is not in the graph, the last thing on the console
    is "ERROR: Missing node " with that id, and [main] returns 1. *)
Theorem run_broken (graph : StoryGraph) (fuel : nat) (s : Session) :
  status s = Running ->
  let r := game_loop fuel graph s in
  status r = Broken ->
  get graph (currentId r) = None
  /\ exit_code r = Some 1
  /\ exists w, cout r = w +:+ "ERROR: Missing node " +:+ show (currentId r) +:+ nl.
Proof.
  intros Hrun r Hbroken. subst r.
  assert (status (game_loop fuel graph s) <> Running) as Hstop by congruence.
  destruct (game_loop_last graph fuel s Hrun Hstop) as (s' & _ & Hlast).
  rewrite Hlast in Hbroken |- *.
  pose proof (broken_only_if_missing graph s' Hbroken) as Hnone.
  destruct (broken_detection graph s' Hnone) as (-> & _ & _).
  split; [done|]. split; [done|]. by exists (cout s').
Qed.

Lemma run_broken_witness :
  let g := addNode {| id := 0; text := "t";
                      choices := [ {| label := "gone"; nextId := 42 |} ] |} emptyGraph in
  status (start 0 ["1"] "") = Running
  /\ status (game_loop 5 g (start 0 ["1"] "")) = Broken
  /\ get g 42 = None
  /\ currentId (game_loop 5 g (start 0 ["1"] "")) = 42.
Proof.
  intros g.
  assert (status (start 0 ["1"] "") = Running) as Hrun by reflexivity.
  assert (status (game_loop 5 g (start 0 ["1"] "")) = Broken) as Hbroken
    by (vm_compute; reflexivity).
  split; [exact Hrun|]. split; [exact Hbroken|].
  assert (currentId (game_loop 5 g (start 0 ["1"] "")) = 42) as Hcur
    by (vm_compute; reflexivity).
  split; [|exact Hcur].
  rewrite <- Hcur. exact (proj1 (run_broken g 5 _ Hrun Hbroken)).
Defined.

(** X11. A run of the loop ends in [Terminated] only on a node without
    choices: the current id is that node's, its id is the last of the
    history, the farewell line is the last thing on the console, and [main]
    returns 0. *)
Theorem run_terminated (graph : StoryGraph) (fuel : nat) (s : Session) :
  status s = Running ->
  let r := game_loop fuel graph s in
  status r = Terminated ->
  exit_code r = Some 0
  /\ (exists node,
        get graph (currentId r) = Some node /\ choices node = []
        /\ last (history r) = Some (id node))
  /\ exists w, cout r = w +:+ "Farewell, Elyndri explorer." +:+ nl.
Proof.
  intros Hrun r Hterm. subst r.
  assert (status (game_loop fuel graph s) <> Running) as Hstop by congruence.
  destruct (game_loop_last graph fuel s Hrun Hstop) as (s' & _ & Hlast).
  rewrite Hlast in Hterm |- *.
  split; [unfold exit_code; by rewrite Hterm|].
  destruct (get graph (currentId s')) as [node|] eqn:Hnode.
  2: { exfalso. revert Hterm. unfold loop_body. by rewrite Hnode. }
  destruct (loop_body_found graph s' node Hnode) as (Hhist & _ & _ & _ & Hend & _).
  destruct (Hend Hterm) as [Hnil Hcur]. split.
  - exists node. rewrite Hcur, Hhist. split; [done|]. split; [done|]. apply last_snoc.
  - unfold loop_body. rewrite Hnode, (proj2 (isEnding_spec node) Hnil).
    cbn [cout]. unfold farewell.
    eexists. rewrite <- !append_assoc. reflexivity.
Qed.

Lemma run_terminated_witness :
  status (start 0 ["1"; "2"; "2"] "") = Running
  /\ status (game_loop 9 buildGame (start 0 ["1"; "2"; "2"] "")) = Terminated
  /\ exit_code (game_loop 9 buildGame (start 0 ["1"; "2"; "2"] "")) = Some 0.
Proof.
  assert (status (start 0 ["1"; "2"; "2"] "") = Running) as Hrun by reflexivity.
  assert (status (game_loop 9 buildGame (start 0 ["1"; "2"; "2"] "")) = Terminated)
    as Hterm by (vm_compute; reflexivity).
  split; [exact Hrun|]. split; [exact Hterm|].
  exact (proj1 (run_terminated buildGame 9 _ Hrun Hterm)).
Defined.

Lemma extends_render node cout : extends cout (render node cout).
Proof.
  unfold render. rewrite printSlow_append.
  exists (nl +:+ rule +:+ text node +:+ nl). by rewrite !append_assoc.
Qed.

Lemma extends_farewell h cout : extends cout (farewell h cout).
Proof.
  unfold farewell. rewrite (print_path_join h 0).
  eexists. rewrite !append_assoc. reflexivity.
Qed.

Lemma extends_print_menu cs cout : extends cout (print_menu cs 0 cout).
Proof. rewrite print_menu_lines. apply extends_append. Qed.

Lemma extends_pauseDots dots ms cout : extends cout (pauseDots dots ms cout).
Proof. rewrite pauseDots_append. apply extends_append. Qed.

(** An iteration adds to the history and to the console and reads from the
    front of the input. *)
Lemma loop_body_grows graph s :
  history s `prefix_of` history (loop_body graph s)
  /\ cin (loop_body graph s) `suffix_of` cin s
  /\ extends (cout s) (cout (loop_body graph s)).
Proof.
  unfold loop_body. destruct (get graph (currentId s)) as [node|].
  2: { cbn. split; [done|]. split; [done|]. apply extends_append. }
  destruct (isEnding node).
  { cbn. split; [by apply prefix_app_r|]. split; [done|].
    eapply extends_trans; [apply extends_render | apply extends_farewell]. }
  set (m := int_cast _). set (shown := print_menu _ _ _ +:+ nl).
  assert (extends (cout s) shown) as Hshown.
  { eapply extends_trans; [apply extends_render|].
    eapply extends_trans; [apply extends_print_menu | apply extends_append]. }
  destruct (readMenuChoice_extends m (cin s) shown) as (used & Hused & Hout).
  destruct (readMenuChoice m (cin s) shown) as [[r cin'] cout'].
  cbn [fst snd] in Hused, Hout.
  assert (cin' `suffix_of` cin s) as Hsuffix by (by exists used).
  assert (extends (cout s) cout') as Hext by (by eapply extends_trans).
  destruct r as [pick|e]; [destruct (at_index (choices node) (pick - 1))|]; cbn;
    (split; [by apply prefix_app_r|]); (split; [done|]); try done.
  eapply extends_trans; [exact Hext | apply extends_pauseDots].
Qed.

(** X12. The loop only ever adds: in every run, the history at the start is
    a prefix of the history at the end, the input left at the end is a
    suffix of the input at the start (lines are read once, in order), and
    the console at the end continues the console at the start. *)
Theorem run_adds_only (graph : StoryGraph) (fuel : nat) (s : Session) :
  history s `prefix_of` history (game_loop fuel graph s)
  /\ cin (game_loop fuel graph s) `suffix_of` cin s
  /\ extends (cout s) (cout (game_loop fuel graph s)).
Proof.
  revert s; induction fuel as [|fuel IH]; intros s.
  { cbn. split; [done|]. split; [done|]. apply extends_refl. }
  destruct (decide (status s = Running)) as [Hrun | Hstop].
  - rewrite game_loop_step by done.
    destruct (loop_body_grows graph s) as (Hh & Hi & Ho).
    destruct (IH (loop_body graph s)) as (Hh' & Hi' & Ho').
    split; [by etrans|]. split; [by etrans|]. by eapply extends_trans.
  - rewrite game_loop_stopped by done.
    split; [done|]. split; [done|]. apply extends_refl.
Qed.

(** ** Graphs built by [addNode] *)

Lemma keyed_empty : keyed emptyGraph.
Proof. intros i node. unfold get, emptyGraph. cbn. by rewrite lookup_empty. Qed.

Lemma keyed_addNode node g : keyed g -> keyed (addNode node g).
Proof.
  intros Hg i found. destruct (decide (i = id node)) as [-> | Hne].
  - rewrite get_addNode_eq. by intros [= <-].
  - rewrite get_addNode_ne by done. apply Hg.
Qed.

(** X13. [addNode] files every node under its own id, so in a graph built
    by [addNode] calls alone (from the empty graph, or from a graph that has
    the property) the node [get] finds under [i] has id [i]: the id [main]
    appends to the history, [node->id], is the id it looked up. *)
Theorem addNode_keeps_keys :
  keyed emptyGraph
  /\ (forall node g, keyed g -> keyed (addNode node g))
  /\ (forall ns g, keyed g -> keyed (upserts ns g))
  /\ keyed buildGame
  /\ (forall g s node, keyed g -> get g (currentId s) = Some node ->
        history (loop_body g s) = history s ++ [currentId s]).
Proof.
  assert (forall ns g, keyed g -> keyed (upserts ns g)) as Hups.
  { unfold upserts. induction ns as [|node ns IH]; intros g Hg; [done|].
    cbn [fold_left]. by apply IH, keyed_addNode. }
  split; [apply keyed_empty|]. split; [apply keyed_addNode|]. split; [done|].
  split.
  - unfold buildGame. cbv zeta. repeat apply keyed_addNode. apply keyed_empty.
  - intros g s node Hg Hnode.
    destruct (loop_body_found g s node Hnode) as (-> & _).
    by rewrite (Hg _ _ Hnode).
Qed.

Lemma addNode_keeps_keys_witness :
  let g := addNode {| id := 5; text := "b"; choices := [] |}
             (addNode {| id := 5; text := "a"; choices := [] |} emptyGraph) in
  keyed g
  /\ get g 5 = Some {| id := 5; text := "b"; choices := [] |}
  /\ history (loop_body g (start 5 [] "")) = [5].
Proof.
  intros g. destruct addNode_keeps_keys as (Hempty & Hadd & _ & _ & Hhist).
  assert (keyed g) as Hg by (apply Hadd, Hadd, Hempty).
  assert (get g 5 = Some {| id := 5; text := "b"; choices := [] |}) as Hnode
    by reflexivity.
  split; [exact Hg|]. split; [exact Hnode|].
  exact (Hhist g (start 5 [] "") _ Hg Hnode).
Defined.

(** ** The history is a walk in the graph *)

Lemma on_walk_start g startId cin cout : on_walk g startId (start startId cin cout).
Proof. unfold on_walk, start. cbn. repeat split; try done. intros a Ha. by apply elem_of_nil in Ha. Qed.

Lemma on_walk_step g startId s :
  keyed g -> status s = Running -> on_walk g startId s ->
  on_walk g startId (loop_body g s).
Proof.
  intros Hkeyed Hrun (Hnodes & Hlinks & Hhead & Hnext). specialize (Hnext Hrun).
  destruct (get g (currentId s)) as [node|] eqn:Hnode.
  2: { unfold loop_body. rewrite Hnode. by repeat split. }
  destruct (loop_body_found g s node Hnode) as (Hhist & _ & _ & _ & _ & Hgo).
  pose proof (Hkeyed _ _ Hnode) as Hid. rewrite Hid in Hhist.
  unfold on_walk. rewrite Hhist. repeat split.
  - intros a [Ha | ->%list_elem_of_singleton]%elem_of_app; [by apply Hnodes | by eexists].
  - intros i a b Ha Hb.
    destruct (decide (S i < length (history s))%nat) as [Hin | Hout].
    + rewrite lookup_app_l in Ha, Hb by lia. by eapply Hlinks.
    + assert (S i = length (history s)) as Hi.
      { apply lookup_lt_Some in Hb. rewrite length_app in Hb. cbn in Hb. lia. }
      rewrite lookup_app_l in Ha by lia.
      rewrite lookup_app_r in Hb by lia.
      replace (S i - length (history s))%nat with 0%nat in Hb by lia.
      injection Hb as <-.
      rewrite last_lookup in Hnext. rewrite <- Hi in Hnext. cbn [pred] in Hnext.
      by rewrite Ha in Hnext.
  - intros a. destruct (history s) as [|x h] eqn:Hh.
    + cbn. intros [= <-]. exact Hnext.
    + cbn. intros [= <-]. by apply Hhead.
  - intros Hrun'. rewrite last_snoc.
    destruct (Hgo Hrun') as (c & Hc & ->). by exists node, c.
Qed.

Lemma on_walk_run g startId fuel s :
  keyed g -> on_walk g startId s -> on_walk g startId (game_loop fuel g s).
Proof.
  intros Hkeyed. revert s; induction fuel as [|fuel IH]; intros s Hs; [done|].
  destruct (decide (status s = Running)) as [Hrun | Hstop].
  - rewrite game_loop_step by done. by apply IH, on_walk_step.
  - by rewrite game_loop_stopped.
Qed.

(** X14. In a graph whose nodes are filed under their own ids, the history
    of a session is a walk from the start id: every recorded id is a node of
    the graph, the first one is the start id, and each one is followed by
    the target of one of its node's choices. *)
Theorem history_is_walk (g : StoryGraph) (startId : Z) (fuel : nat)
    (input : list string) (cout0 : string) :
  keyed g ->
  let h := history (session fuel g startId input cout0) in
  (forall a, a ∈ h -> is_Some (get g a))
  /\ (forall a, head h = Some a -> a = startId)
  /\ (forall i a b, h !! i = Some a -> h !! S i = Some b ->
        exists node c, get g a = Some node /\ c ∈ choices node /\ nextId c = b).
Proof.
  intros Hkeyed h. subst h. unfold session.
  destruct (on_walk_run g startId fuel (start startId input cout0) Hkeyed
              (on_walk_start g startId input cout0)) as (Hnodes & Hlinks & Hhead & _).
  split; [done|]. split; [done|]. exact Hlinks.
Qed.

Lemma history_is_walk_witness :
  keyed buildGame
  /\ history (session 9 buildGame 0 ["2"; "2"; "2"; "1"] "") = [0; 2; 5; 1; 3; 6; 11]
  /\ exists node c, get buildGame 5 = Some node /\ c ∈ choices node /\ nextId c = 1.
Proof.
  assert (keyed buildGame) as Hkeyed.
  { unfold buildGame. cbv zeta. repeat apply keyed_addNode. apply keyed_empty. }
  assert (history (session 9 buildGame 0 ["2"; "2"; "2"; "1"] "") = [0; 2; 5; 1; 3; 6; 11])
    as Hh by (vm_compute; reflexivity).
  split; [exact Hkeyed|]. split; [exact Hh|].
  apply (proj2 (proj2 (history_is_walk buildGame 0 9 ["2"; "2"; "2"; "1"] "" Hkeyed)) 2%nat);
    rewrite Hh; reflexivity.
Defined.

(** ** Runs that end, and runs that do not *)

Lemma rankedb_sound g rank : rankedb g rank = true -> ranked g rank.
Proof.
  unfold rankedb, ranked, get. intros Hall i node c Hnode Hc.
  rewrite forallb_forall in Hall.
  assert (In (i, node) (map_to_list (nodes g))) as Hin
    by (by apply list_elem_of_In, elem_of_map_to_list).
  specialize (Hall _ Hin). cbn [fst snd] in Hall. rewrite forallb_forall in Hall.
  apply list_elem_of_In in Hc. specialize (Hall _ Hc). by apply Nat.ltb_lt.
Qed.

Lemma game_loop_ranked g rank fuel s :
  ranked g rank -> (rank (currentId s) < fuel)%nat ->
  status (game_loop fuel g s) <> Running
  /\ (length (history (game_loop fuel g s)) <= length (history s) + S (rank (currentId s)))%nat.
Proof.
  intros Hranked. revert s; induction fuel as [|fuel IH]; intros s Hfuel; [lia|].
  destruct (decide (status s = Running)) as [Hrun | Hstop].
  2: { rewrite game_loop_stopped by done. split; [done | lia]. }
  rewrite game_loop_step by done.
  destruct (get g (currentId s)) as [node|] eqn:Hnode.
  2: { destruct (broken_detection g s Hnode) as (-> & _).
       rewrite game_loop_stopped by done. cbn. split; [done | lia]. }
  destruct (loop_body_found g s node Hnode) as (Hhist & _ & _ & _ & _ & Hgo).
  destruct (decide (status (loop_body g s) = Running)) as [Hrun' | Hstop'].
  - destruct (Hgo Hrun') as (c & Hc & Hcur).
    pose proof (Hranked _ _ _ Hnode Hc) as Hdown.
    destruct (IH (loop_body g s)) as [Hend Hlen]; [rewrite Hcur; lia|].
    split; [done|]. rewrite Hhist, length_app, Hcur in Hlen. cbn in Hlen. lia.
  - rewrite game_loop_stopped by done. split; [done|].
    rewrite Hhist, length_app. cbn. lia.
Qed.

(** X15. Where a rank goes down along every choice of the graph (the graph
    has no cycle), a session whose input comes to an end (finitely many
    lines, then [getline] fails) stops, whatever those lines are: from a
    start id of rank [n] the loop of [main] has stopped after at most
    [n + 1] iterations, with at most [n + 1] ids in the history, and further
    iterations change nothing.  The bound is on the iterations of the loop
    of [main]; that each call of [readMenuChoice] returns rests on the input
    ending. *)
Theorem ranked_sessions_end (g : StoryGraph) (rank : Z -> nat) (startId : Z)
    (fuel : nat) (input : list string) (cout0 : string) :
  ranked g rank -> (rank startId < fuel)%nat ->
  let r := session fuel g startId input cout0 in
  status r <> Running
  /\ (length (history r) <= S (rank startId))%nat
  /\ r = session (S (rank startId)) g startId input cout0.
Proof.
  intros Hranked Hfuel r. subst r. unfold session.
  destruct (game_loop_ranked g rank fuel (start startId input cout0) Hranked Hfuel)
    as [Hend Hlen].
  split; [done|]. split; [exact Hlen|].
  apply game_loop_more; [|lia].
  apply (game_loop_ranked g rank (S (rank startId)) (start startId input cout0) Hranked).
  cbn. lia.
Qed.

Lemma ranked_sessions_end_witness :
  ranked buildGame shipped_rank
  /\ (shipped_rank 0 < 20)%nat
  /\ status (session 20 buildGame 0 ["2"; "2"; "2"] "") <> Running.
Proof.
  assert (ranked buildGame shipped_rank) as Hranked
    by (apply rankedb_sound; vm_compute; reflexivity).
  assert (shipped_rank 0 < 20)%nat as Hfuel by (cbn; lia).
  split; [exact Hranked|]. split; [exact Hfuel|].
  exact (proj1 (ranked_sessions_end buildGame shipped_rank 0 20 ["2"; "2"; "2"] ""
                  Hranked Hfuel)).
Defined.

Lemma game_loop_abort_kind graph fuel s e :
  status s = Running -> status (game_loop fuel graph s) = Aborted e -> e = out_of_range.
Proof.
  intros Hrun Habort.
  assert (status (game_loop fuel graph s) <> Running) as Hstop by congruence.
  destruct (game_loop_last graph fuel s Hrun Hstop) as (s' & _ & Hlast).
  rewrite Hlast in Habort.
  destruct (get graph (currentId s')) as [node|] eqn:Hnode.
  - destruct (loop_body_found graph s' node Hnode) as (_ & _ & _ & Hkind & _). by apply Hkind.
  - exfalso. revert Habort. unfold loop_body. by rewrite Hnode.
Qed.

(** X16. On the shipped graph, [main] ends on every input that comes to an
    end (finitely many lines, then [getline] fails), whatever those lines
    are: after at most eight iterations of its loop the run is over, at
    most eight scenes were shown, and the process has either returned 0
    from an ending or died of the uncaught [out_of_range] of [stoi]; it
    never returns 1.  That each call of [readMenuChoice] returns rests on
    the input ending. *)
Theorem main_ends_when_input_ends (fuel : nat) (input : list string) :
  (8 <= fuel)%nat ->
  (status (main fuel input) = Terminated \/ status (main fuel input) = Aborted out_of_range)
  /\ exit_code (main fuel input) <> Some 1
  /\ (length (history (main fuel input)) <= 8)%nat
  /\ main fuel input = main 8 input.
Proof.
  intros Hfuel. unfold main, session.
  set (s := start 0 input _).
  assert (ranked buildGame shipped_rank) as Hranked
    by (apply rankedb_sound; vm_compute; reflexivity).
  destruct (game_loop_ranked buildGame shipped_rank fuel s Hranked) as [Hend Hlen];
    [cbn; lia|].
  destruct (game_loop_resolved fuel buildGame s buildGame_well_formed) as [Hnb _];
    [done | by eexists |].
  assert (status (game_loop fuel buildGame s) = Terminated
          \/ status (game_loop fuel buildGame s) = Aborted out_of_range) as Hhow.
  { destruct (status (game_loop fuel buildGame s)) as [| | |e|] eqn:Hst; try done.
    - left. done.
    - right. f_equal. by apply (game_loop_abort_kind buildGame fuel s).
    - exfalso. by apply (game_loop_in_bounds buildGame fuel s). }
  split; [exact Hhow|]. split.
  - unfold exit_code. by destruct Hhow as [-> | ->].
  - split; [exact Hlen|].
    apply game_loop_more; [|done].
    apply (game_loop_ranked buildGame shipped_rank 8 s Hranked). cbn. lia.
Qed.

Lemma main_ends_when_input_ends_witness :
  (8 <= 12)%nat
  /\ (status (main 12 ["2"; "2"; "2"; "abc"]) = Terminated
      \/ status (main 12 ["2"; "2"; "2"; "abc"]) = Aborted out_of_range)
  /\ main 12 ["2"; "2"; "2"; "abc"] = main 8 ["2"; "2"; "2"; "abc"].
Proof.
  assert (8 <= 12)%nat as Hfuel by lia.
  split; [exact Hfuel|].
  destruct (main_ends_when_input_ends 12 ["2"; "2"; "2"; "abc"] Hfuel) as (Hhow & _ & _ & Hsame).
  split; [exact Hhow | exact Hsame].
Defined.

(** At the end of the input every menu is answered with its first choice. *)
Lemma loop_body_eof graph s node c cs :
  cin s = [] -> get graph (currentId s) = Some node -> choices node = c :: cs ->
  currentId (loop_body graph s) = nextId c
  /\ history (loop_body graph s) = history s ++ [id node]
  /\ cin (loop_body graph s) = []
  /\ status (loop_body graph s) = Running.
Proof.
  intros Hcin Hnode Hchoices. unfold loop_body, isEnding.
  rewrite Hnode, Hcin, Hchoices. cbn [readMenuChoice].
  change (at_index (c :: cs) (1 - 1)) with (Some c). done.
Qed.

(** X17. When the input has run out, [readMenuChoice] answers every menu
    with 1 and the loop follows first choices; so from ids that first
    choices never lead out of and that have no ending among them (a cycle of
    first choices), the loop never stops: after any number of iterations the
    session is still [Running], with one more id recorded each time. *)
Theorem eof_follows_first_choices (graph : StoryGraph) (inside : Z -> Prop) :
  (forall i, inside i ->
     exists node c cs,
       get graph i = Some node /\ choices node = c :: cs /\ inside (nextId c)) ->
  forall fuel s,
    inside (currentId s) -> cin s = [] -> status s = Running ->
    status (game_loop fuel graph s) = Running
    /\ inside (currentId (game_loop fuel graph s))
    /\ length (history (game_loop fuel graph s)) = (length (history s) + fuel)%nat.
Proof.
  intros Hclosed. induction fuel as [|fuel IH]; intros s Hin Hcin Hrun.
  { cbn. split; [done|]. split; [done|]. lia. }
  rewrite game_loop_step by done.
  destruct (Hclosed _ Hin) as (node & c & cs & Hnode & Hchoices & Hnext).
  destruct (loop_body_eof graph s node c cs Hcin Hnode Hchoices)
    as (Hcur & Hhist & Hcin' & Hrun').
  destruct (IH (loop_body graph s)) as (Hst & Hins & Hlen); [by rewrite Hcur|done|done|].
  split; [done|]. split; [done|].
  rewrite Hlen, Hhist, length_app. cbn. lia.
Qed.

Lemma eof_follows_first_choices_witness :
  let g := addNode {| id := 1; text := "b";
                      choices := [ {| label := "back"; nextId := 0 |} ] |}
             (addNode {| id := 0; text := "a";
                         choices := [ {| label := "on"; nextId := 1 |};
                                      {| label := "out"; nextId := 2 |} ] |}
                (addNode {| id := 2; text := "end"; choices := [] |} emptyGraph)) in
  status (game_loop 50 g (start 0 [] "")) = Running
  /\ length (history (game_loop 50 g (start 0 [] ""))) = 50%nat.
Proof.
  intros g.
  assert (forall i, (i = 0 \/ i = 1) ->
            exists node c cs,
              get g i = Some node /\ choices node = c :: cs
              /\ (nextId c = 0 \/ nextId c = 1)) as Hclosed.
  { intros i [-> | ->]; eexists; eexists; eexists;
      (split; [reflexivity|]); (split; [reflexivity|]); cbn; auto. }
  destruct (eof_follows_first_choices g (fun i => i = 0 \/ i = 1) Hclosed 50
              (start 0 [] "")) as (Hst & _ & Hlen); [by left | done | done |].
  split; [exact Hst | exact Hlen].
Defined.

(** ** The shipped story *)

(** X18. No scene of the shipped story is out of reach: for each id of
    0 .. 15 there are lines to type that bring [main] to show that scene. *)
Theorem every_scene_reachable (i : Z) :
  0 <= i <= 15 ->
  exists input fuel, i ∈ history (main fuel input).
Proof.
  intros Hi.
  assert (i = 0 \/ i = 1 \/ i = 2 \/ i = 3 \/ i = 4 \/ i = 5 \/ i = 6 \/ i = 7 \/ i = 8
          \/ i = 9 \/ i = 10 \/ i = 11 \/ i = 12 \/ i = 13 \/ i = 14 \/ i = 15)
    as Hcases by lia.
  assert (forall input n,
            history (main 8 input) !! n = Some i ->
            exists input fuel, i ∈ history (main fuel input)) as Hshow.
  { intros input n Hn. exists input, 8%nat. by eapply list_elem_of_lookup_2. }
  destruct Hcases as [-> | Hcases]; [by apply (Hshow [] 0%nat)|].
  destruct Hcases as [-> | Hcases]; [by apply (Hshow ["1"] 1%nat)|].
  destruct Hcases as [-> | Hcases]; [by apply (Hshow ["2"] 1%nat)|].
  destruct Hcases as [-> | Hcases]; [by apply (Hshow ["1"; "1"] 2%nat)|].
  destruct Hcases as [-> | Hcases]; [by apply (Hshow ["1"; "2"] 2%nat)|].
  destruct Hcases as [-> | Hcases]; [by apply (Hshow ["2"; "2"] 2%nat)|].
  destruct Hcases as [-> | Hcases]; [by apply (Hshow ["1"; "1"; "1"] 3%nat)|].
  destruct Hcases as [-> | Hcases]; [by apply (Hshow ["1"; "1"; "2"] 3%nat)|].
  destruct Hcases as [-> | Hcases]; [by apply (Hshow ["1"; "2"; "1"] 3%nat)|].
  destruct Hcases as [-> | Hcases]; [by apply (Hshow ["1"; "2"; "2"] 3%nat)|].
  destruct Hcases as [-> | Hcases]; [by apply (Hshow ["2"; "2"; "1"] 3%nat)|].
  destruct Hcases as [-> | Hcases]; [by apply (Hshow ["1"; "1"; "1"; "1"] 4%nat)|].
  destruct Hcases as [-> | Hcases]; [by apply (Hshow ["1"; "1"; "1"; "2"] 4%nat)|].
  destruct Hcases as [-> | Hcases]; [by apply (Hshow ["1"; "1"; "2"; "1"] 4%nat)|].
  destruct Hcases as [-> | Hcases]; [by apply (Hshow ["1"; "1"; "2"; "2"] 4%nat)|].
  subst i. by apply (Hshow ["1"; "1"; "2"; "1"; "1"] 5%nat).
Qed.

Lemma every_scene_reachable_witness :
  0 <= 14 <= 15 /\ exists input fuel, 14 ∈ history (main fuel input).
Proof.
  assert (0 <= 14 <= 15) as Hi by lia.
  split; [exact Hi|]. exact (every_scene_reachable 14 Hi).
Defined.

(** ** What one iteration shows *)

(** X19. The console text of one iteration.  On a node without choices:
    a blank line and the separator, the node's text, the separator again,
    the path and the farewell.  On a node with choices, when the next line
    typed is the number of one of them: a blank line and the separator, the
    node's text, the numbered menu, a blank line, one prompt with the
    number of choices, and the three dots of the pause; no message. *)
Theorem iteration_transcript (graph : StoryGraph) (s : Session) (node : StoryNode) :
  get graph (currentId s) = Some node ->
  (choices node = [] ->
     cout (loop_body graph s)
       = cout s +:+ nl +:+ rule +:+ text node +:+ nl
           +:+ rule +:+ "Path Taken: "
           +:+ String.concat " -> " (map show (history s ++ [id node]))
           +:+ nl +:+ nl +:+ "Farewell, Elyndri explorer." +:+ nl)
  /\ (forall k rest,
        1 <= k <= Z.of_nat (length (choices node)) ->
        Z.of_nat (length (choices node)) <= INT_MAX ->
        cin s = show k :: rest ->
        cout (loop_body graph s)
          = cout s +:+ nl +:+ rule +:+ text node +:+ nl
              +:+ pieces (imap (fun j c => menu_line (S j) c) (choices node)) +:+ nl
              +:+ "Enter choice (1-" +:+ show (Z.of_nat (length (choices node))) +:+ "): "
              +:+ "..." +:+ nl).
Proof.
  intros Hnode. split.
  - intros Hnil. unfold loop_body. rewrite Hnode, (proj2 (isEnding_spec node) Hnil).
    cbn [cout]. unfold farewell, render.
    rewrite (print_path_join (history s ++ [id node]) 0), printSlow_append.
    by rewrite !append_assoc.
  - intros k rest Hk Hfit Hcin.
    assert (isEnding node = false) as Hend.
    { apply isEnding_false. intros Hnil. rewrite Hnil in Hk. cbn in Hk. lia. }
    destruct (at_index_Some (choices node) k Hk) as (c & _ & Hat).
    unfold loop_body. rewrite Hnode, Hend, Hcin.
    rewrite int_cast_small by lia.
    rewrite readMenuChoice_show by lia. rewrite Hat. cbn [cout].
    rewrite pauseDots_append, print_menu_lines. unfold render, prompt.
    rewrite printSlow_append. by rewrite !append_assoc.
Qed.

Lemma iteration_transcript_witness :
  exists node,
    get buildGame 14 = Some node /\ choices node = []
    /\ exists tail,
         cout (loop_body buildGame
                 {| currentId := 14; history := [0; 1; 3; 7]; cin := []; cout := "";
                    status := Running |})
         = nl +:+ rule +:+ text node +:+ nl +:+ rule
             +:+ "Path Taken: 0 -> 1 -> 3 -> 7 -> 14" +:+ tail.
Proof.
  eexists. split; [vm_compute; reflexivity|]. split; [reflexivity|].
  eexists.
  rewrite (proj1 (iteration_transcript buildGame
                    {| currentId := 14; history := [0; 1; 3; 7]; cin := []; cout := "";
                       status := Running |} _ eq_refl) eq_refl).
  reflexivity.
Defined.
